(** * Analytics core of the Kalshi dashboard (api/stats.js, api/correlation.js)

    A shallow embedding of the pure numeric functions of the dashboard:
    [computeSpread], [computeMomentum], [detectArbitrage],
    [computeVolumeAnalysis], [computeDivergence] (api/stats.js) and
    [pearsonCorrelation], [normalizeSeries], [extractKeywords],
    [keywordSimilarity], [computeRelatedness] (api/correlation.js, whose
    text stands at the end of components/Scanner.jsx); and of what the
    components compute with them: the market list, the arbitrage scan, the
    reference lookup, the ranking and the sorted view of
    components/Scanner.jsx, the related markets of the chart (App.jsx), the
    categories, the filters and the sort state of
    components/MarketTable.jsx, and the paging loop of api/kalshi.js.

    Every function is written once, over an interface [JSNumber] of the
    operations the source applies to JavaScript numbers.  The interface has
    two instances:
    - [float], the kernel's binary64 numbers, which are JavaScript's Number
      type: the functions run on them with [vm_compute] and give what the
      program gives, rounding included;
    - [R], the exact real numbers: the functions with rounding error left
      out, where the algebraic laws of the analytics are proved. *)

From Stdlib Require Import Floats.PrimFloat Floats.SpecFloat Floats.FloatOps.
From Stdlib Require Import ZArith List String Ascii Bool Lia Lra.
From Stdlib Require Import Reals.
From Stdlib Require Import DecimalString.
From Stdlib Require Import Permutation Sorted.
Import ListNotations.

(** ** The number interface *)

Class JSNumber (A : Type) : Type := {
  ofZ : Z -> A;                (* an integer literal, a length or a loop index *)
  add : A -> A -> A;
  sub : A -> A -> A;
  mul : A -> A -> A;
  div : A -> A -> A;
  ltb : A -> A -> bool;        (* [x < y]; [x > y] is [ltb y x] *)
  eqb : A -> A -> bool;        (* [x === y] on numbers *)
  Math_abs : A -> A;
  Math_sqrt : A -> A;
  Math_min2 : A -> A -> A;     (* Math.min of two arguments *)
  Math_max2 : A -> A -> A;     (* Math.max of two arguments *)
  Math_round : A -> A;
  toFixed0 : A -> string       (* [x.toFixed(0)] *)
}.

Declare Scope js_scope.
Delimit Scope js_scope with js.
Infix "+" := add : js_scope.
Infix "-" := sub : js_scope.
Infix "*" := mul : js_scope.
Infix "/" := div : js_scope.
Notation "x <? y" := (ltb x y) : js_scope.
Notation "x >? y" := (ltb y x) : js_scope.
Notation "x === y" := (eqb x y) (at level 70, no associativity) : js_scope.

(** Decimal digits of an integer, as [Number.prototype.toString] and
    [toFixed] print them. *)
Definition digits (z : Z) : string :=
  NilZero.string_of_uint (N.to_uint (Z.to_N z)).

(** *** Binary64 *)

Module F64.

(** The double nearest to an integer: below 2^53 in magnitude the integer
    itself, converted by the primitive conversion; the rounding of the
    format beyond. *)
Definition ofZ (z : Z) : PrimFloat.float :=
  if (Z.abs z <? 9007199254740992)%Z then
    let f := PrimFloat.of_uint63 (Uint63Axioms.of_Z (Z.abs z)) in
    if (z <? 0)%Z then PrimFloat.opp f else f
  else SF2Prim (binary_normalize prec emax z 0 false).

(** floor(x + 1/2) of a finite non-zero double with a fractional part,
    computed exactly on its mantissa [m] and exponent [e < 0]. *)
Definition half_up (s : bool) (m : positive) (e : Z) : Z :=
  let v := if s then Z.neg m else Z.pos m in
  ((2 * v + 2 ^ (- e)) / 2 ^ (1 - e))%Z.

(** ECMAScript Math.round: a value that is not finite or is integral is
    returned unchanged; otherwise floor(x + 1/2), with -0 for a negative
    argument that rounds to zero. *)
Definition round (x : PrimFloat.float) : PrimFloat.float :=
  match Prim2SF x with
  | S754_finite s m e =>
      if (0 <=? e)%Z then x
      else
        let z := half_up s m e in
        if (z =? 0)%Z then (if s then PrimFloat.neg_zero else PrimFloat.zero) else ofZ z
  | _ => x
  end.

(** ECMAScript Math.min and Math.max on two arguments: NaN if either is
    NaN, and -0 counts as smaller than +0. *)
Definition min2 (x y : PrimFloat.float) : PrimFloat.float :=
  if PrimFloat.is_nan x then x else if PrimFloat.is_nan y then y
  else if PrimFloat.ltb x y then x
  else if PrimFloat.ltb y x then y
  else if PrimFloat.get_sign x then x else y.

Definition max2 (x y : PrimFloat.float) : PrimFloat.float :=
  if PrimFloat.is_nan x then x else if PrimFloat.is_nan y then y
  else if PrimFloat.ltb x y then y
  else if PrimFloat.ltb y x then x
  else if PrimFloat.get_sign x then y else x.

(** [x.toFixed(0)] for a double below 10^21 in magnitude: the sign, then
    the digits of the integer nearest to |x| (the larger one on a tie).
    At 10^21 and above the program prints an exponent form, which no
    caller in the analytics reaches (the only argument is a percentage). *)
Definition toFixed0 (x : PrimFloat.float) : string :=
  match Prim2SF x with
  | S754_nan => "NaN"
  | S754_infinity s => if s then "-Infinity" else "Infinity"
  | S754_zero _ => "0"
  | S754_finite s m e =>
      let n := if (0 <=? e)%Z then (Z.pos m * 2 ^ e)%Z else half_up false m e in
      ((if s then "-" else "") ++ digits n)%string
  end.

End F64.

#[export] Instance float_JSNumber : JSNumber PrimFloat.float := {
  ofZ := F64.ofZ;
  add := PrimFloat.add;
  sub := PrimFloat.sub;
  mul := PrimFloat.mul;
  div := PrimFloat.div;
  ltb := PrimFloat.ltb;
  eqb := PrimFloat.eqb;
  Math_abs := PrimFloat.abs;
  Math_sqrt := PrimFloat.sqrt;
  Math_min2 := F64.min2;
  Math_max2 := F64.max2;
  Math_round := F64.round;
  toFixed0 := F64.toFixed0
}.

(** *** Exact reals *)

Module Exact.

Definition ltb (x y : R) : bool := if Rlt_dec x y then true else false.
Definition eqb (x y : R) : bool := if Req_dec_T x y then true else false.

(** floor(x + 1/2). *)
Definition roundZ (x : R) : Z := Int_part (x + / 2).
Definition round (x : R) : R := IZR (roundZ x).

Definition toFixed0 (x : R) : string :=
  if Rlt_dec x 0 then ("-" ++ digits (roundZ (- x)))%string
  else digits (roundZ x).

End Exact.

#[export] Instance R_JSNumber : JSNumber R := {
  ofZ := IZR;
  add := Rplus;
  sub := Rminus;
  mul := Rmult;
  div := Rdiv;
  ltb := Exact.ltb;
  eqb := Exact.eqb;
  Math_abs := Rabs;
  Math_sqrt := sqrt;
  Math_min2 := Rmin;
  Math_max2 := Rmax;
  Math_round := Exact.round;
  toFixed0 := Exact.toFixed0
}.

(** ** api/stats.js *)

Section Stats.

Context {A : Type} `{JSNumber A}.
Local Open Scope string_scope.
Local Open Scope js_scope.

Definition ofnat (n : nat) : A := ofZ (Z.of_nat n).

(** [xs.reduce((s, v) => s + v, 0)] *)
Definition sum (xs : list A) : A := fold_left add xs (ofZ 0).

(** A number in a condition or under [||]: false for 0, -0 and NaN. *)
Definition truthy (x : A) : bool := negb (x === ofZ 0) && (x === x).

(** [Math.round(x * 10) / 10] and [Math.round(x * 100) / 100] *)
Definition round1 (x : A) : A := Math_round (x * ofZ 10) / ofZ 10.
Definition round2 (x : A) : A := Math_round (x * ofZ 100) / ofZ 100.

(** *** computeSpread *)

(** An order book level is the array [[price, quantity]]. *)
Definition Level : Type := A * A.

Record Orderbook : Type := {
  yes : option (list Level);
  no : option (list Level)
}.

Record Spread : Type := {
  spread : option A;
  spreadPct : option A;
  bestBid : option A;
  bestAsk : option A;
  midpoint : option A;
  depth : nat
}.

(** [side || []] *)
Definition or_empty (side : option (list Level)) : list Level :=
  match side with Some l => l | None => [] end.

(** [bids.length > 0 ? bids[0][0] : null] *)
Definition top_price (bids : list Level) : option A :=
  match bids with l :: _ => Some (fst l) | [] => None end.

Definition computeSpread (orderbook : option Orderbook) : option Spread :=
  match orderbook with
  | None => None
  | Some ob =>
      let yesBids := or_empty (yes ob) in
      let noBids := or_empty (no ob) in
      let bestYesBid := top_price yesBids in
      let bestNoBid := top_price noBids in
      let bestAsk :=
        match bestNoBid with Some p => Some (ofZ 100 - p) | None => None end in
      let bestBid := bestYesBid in
      match bestBid, bestAsk with
      | Some bid, Some ask =>
          let spread := ask - bid in
          let midpoint := (bid + ask) / ofZ 2 in
          let spreadPct :=
            if midpoint >? ofZ 0 then (spread / midpoint) * ofZ 100 else ofZ 0 in
          Some {| spread := Some spread; spreadPct := Some spreadPct;
                  bestBid := bestBid; bestAsk := bestAsk;
                  midpoint := Some midpoint;
                  depth := List.length yesBids + List.length noBids |}
      | _, _ =>
          Some {| spread := None; spreadPct := None;
                  bestBid := bestBid; bestAsk := bestAsk;
                  midpoint := None;
                  depth := List.length yesBids + List.length noBids |}
      end
  end.

(** *** computeMomentum *)

Record Trade : Type := {
  yes_price : option A;
  price : option A
}.

(** [t.yes_price ?? t.price ?? 0] *)
Definition tradePrice (t : Trade) : A :=
  match yes_price t with
  | Some p => p
  | None => match price t with Some p => p | None => ofZ 0 end
  end.

Record Sums : Type := { sumX : A; sumY : A; sumXY : A; sumX2 : A }.

(** The regression loop [for (let i = 0; i < n; i++)], entered at index
    [i] with the elements [prices[i..]] still to visit. *)
Fixpoint regression (prices : list A) (i : nat) (s : Sums) : Sums :=
  match prices with
  | [] => s
  | p :: rest =>
      regression rest (S i)
        {| sumX := sumX s + ofnat i;
           sumY := sumY s + p;
           sumXY := sumXY s + ofnat i * p;
           sumX2 := sumX2 s + ofnat i * ofnat i |}
  end.

Definition sums (prices : list A) : Sums :=
  regression prices 0
    {| sumX := ofZ 0; sumY := ofZ 0; sumXY := ofZ 0; sumX2 := ofZ 0 |}.

(** The denominator of the slope, [n * sumX2 - sumX * sumX]. *)
Definition slope_denominator (prices : list A) : A :=
  let n := ofnat (List.length prices) in
  let s := sums prices in
  n * sumX2 s - sumX s * sumX s.

Definition slope_numerator (prices : list A) : A :=
  let n := ofnat (List.length prices) in
  let s := sums prices in
  n * sumXY s - sumX s * sumY s.

Record Momentum : Type := {
  direction : string;
  magnitude : A;
  recentAvg : A;
  olderAvg : A;
  tradeCount : nat;
  velocity : A
}.

Definition computeMomentum (trades : option (list Trade)) : option Momentum :=
  match trades with
  | None => None
  | Some ts =>
      if (List.length ts <? 4)%nat then None
      else
        let prices := map tradePrice ts in
        let half := (List.length prices / 2)%nat in
        let recentHalf := firstn half prices in
        let olderHalf := skipn half prices in
        let recentAvg := sum recentHalf / ofnat (List.length recentHalf) in
        let olderAvg := sum olderHalf / ofnat (List.length olderHalf) in
        let magnitude := Math_abs (recentAvg - olderAvg) in
        let slope := slope_numerator prices / slope_denominator prices in
        let direction :=
          if (recentAvg - olderAvg) >? ofZ 1 then "UP"
          else if (olderAvg - recentAvg) >? ofZ 1 then "DOWN"
          else "FLAT" in
        Some {| direction := direction;
                magnitude := round1 magnitude;
                recentAvg := round1 recentAvg;
                olderAvg := round1 olderAvg;
                tradeCount := List.length ts;
                velocity := round2 slope |}
  end.

(** *** detectArbitrage *)

Record Market : Type := {
  event_ticker : option string;
  title : option string;
  event_title : option string;
  last_price : option A
}.

Record Arbitrage : Type := {
  totalImpliedPct : A;
  overround : A;
  marketCount : nat;
  isMispriced : bool
}.

(** [m.last_price != null && m.last_price > 0] *)
Definition hasPrice (m : Market) : bool :=
  match last_price m with Some p => p >? ofZ 0 | None => false end.

(** [m.last_price || 0] *)
Definition priceOr0 (m : Market) : A :=
  match last_price m with
  | Some p => if truthy p then p else ofZ 0
  | None => ofZ 0
  end.

Definition detectArbitrage (eventMarkets : option (list Market)) : option Arbitrage :=
  match eventMarkets with
  | None => None
  | Some ms =>
      if (List.length ms <? 2)%nat then None
      else
        let marketsWithPrice := filter hasPrice ms in
        if (List.length marketsWithPrice <? 2)%nat then None
        else
          let totalImpliedPct :=
            fold_left (fun sum m => sum + priceOr0 m) marketsWithPrice (ofZ 0) in
          let overround := totalImpliedPct - ofZ 100 in
          Some {| totalImpliedPct := round1 totalImpliedPct;
                  overround := round1 overround;
                  marketCount := List.length marketsWithPrice;
                  isMispriced := Math_abs overround >? ofZ 15 |}
  end.

End Stats.

Arguments Orderbook A : clear implicits.
Arguments Spread A : clear implicits.
Arguments Trade A : clear implicits.
Arguments Sums A : clear implicits.
Arguments Momentum A : clear implicits.
Arguments Market A : clear implicits.
Arguments Arbitrage A : clear implicits.

(** *** computeDivergence *)

Module Divergence.
Section Divergence.

Context {A : Type} `{JSNumber A}.
Local Open Scope string_scope.
Local Open Scope js_scope.

Record Result : Type := {
  divergence : A;
  direction : string;
  targetDelta : A;
  candidateDelta : A
}.

(** [prices.slice(0, 3).reduce((s, v) => s + v, 0) / 3] *)
Definition recent (prices : list A) : A := sum (firstn 3 prices) / ofZ 3.

(** [prices.slice(-3).reduce((s, v) => s + v, 0) / 3]: the last three
    elements, or all of them when there are fewer. *)
Definition older (prices : list A) : A :=
  sum (skipn (List.length prices - 3) prices) / ofZ 3.

Definition computeDivergence (targetTrades candidateTrades : option (list (Trade A)))
  : option Result :=
  match targetTrades, candidateTrades with
  | Some tTrades, Some cTrades =>
      if (List.length tTrades =? 0)%nat || (List.length cTrades =? 0)%nat then None
      else if (List.length tTrades <? 3)%nat || (List.length cTrades <? 3)%nat then None
      else
        let tPrices := map tradePrice tTrades in
        let cPrices := map tradePrice cTrades in
        let tRecent := recent tPrices in
        let tOlder := older tPrices in
        let cRecent := recent cPrices in
        let cOlder := older cPrices in
        let tDelta := tRecent - tOlder in
        let cDelta := cRecent - cOlder in
        let divergence := Math_abs (tDelta - cDelta) in
        let direction :=
          if (tDelta >? ofZ 1) && (cDelta <? ofZ (-1)) then "TARGET UP / MATCH DOWN"
          else if (tDelta <? ofZ (-1)) && (cDelta >? ofZ 1) then "TARGET DOWN / MATCH UP"
          else if (tDelta >? ofZ 1) && (cDelta >? ofZ 1)
                  && (Math_abs (tDelta - cDelta) >? ofZ 3)
               then "BOTH UP (DIVERGING)"
          else if (tDelta <? ofZ (-1)) && (cDelta <? ofZ (-1))
                  && (Math_abs (tDelta - cDelta) >? ofZ 3)
               then "BOTH DOWN (DIVERGING)"
          else "NEUTRAL" in
        Some {| divergence := round1 divergence;
                direction := direction;
                targetDelta := round1 tDelta;
                candidateDelta := round1 cDelta |}
  | _, _ => None
  end.

End Divergence.
Arguments Result A : clear implicits.
End Divergence.

(** ** api/correlation.js *)

(** *** extractKeywords

    Strings are taken over the ASCII code units, where [toLowerCase] acts on
    the letters A to Z and the class [\s] is the six ASCII white-space
    characters. *)

Module Keywords.

Local Open Scope string_scope.

Definition code (c : ascii) : nat := nat_of_ascii c.

Definition toLowerCase_char (c : ascii) : ascii :=
  if (65 <=? code c)%nat && (code c <=? 90)%nat
  then ascii_of_nat (code c + 32) else c.

Definition toLowerCase (s : string) : string :=
  string_of_list_ascii (map toLowerCase_char (list_ascii_of_string s)).

(** [\s] *)
Definition is_space (c : ascii) : bool :=
  ((9 <=? code c)%nat && (code c <=? 13)%nat) || (code c =? 32)%nat.

(** [a-z0-9] *)
Definition is_lower_alnum (c : ascii) : bool :=
  ((97 <=? code c)%nat && (code c <=? 122)%nat)
  || ((48 <=? code c)%nat && (code c <=? 57)%nat).

(** [.replace(/[^a-z0-9\s]/g, ' ')] *)
Definition strip_punctuation (s : string) : string :=
  string_of_list_ascii
    (map (fun c => if is_lower_alnum c || is_space c then c else " "%char)
         (list_ascii_of_string s)).

(** [.split(/\s+/)]: [cur] is the piece being read and [in_ws] tells that
    the previous character was white space. *)
Fixpoint split_ws_from (s : string) (cur : string) (in_ws : bool) : list string :=
  match s with
  | EmptyString => [cur]
  | String c rest =>
      if is_space c then
        if in_ws then split_ws_from rest cur true
        else cur :: split_ws_from rest "" true
      else split_ws_from rest (cur ++ String c "") false
  end.

Definition split_ws (s : string) : list string := split_ws_from s "" false.

Definition STOP_WORDS : list string := [
  "the"; "a"; "an"; "is"; "are"; "was"; "were"; "be"; "been"; "being";
  "will"; "would"; "could"; "should"; "may"; "might"; "shall"; "can";
  "do"; "does"; "did"; "have"; "has"; "had"; "having";
  "in"; "on"; "at"; "to"; "for"; "of"; "with"; "by"; "from"; "as";
  "and"; "or"; "not"; "no"; "yes"; "but"; "if"; "than"; "that"; "this";
  "it"; "its"; "what"; "which"; "who"; "whom"; "how"; "when"; "where";
  "before"; "after"; "above"; "below"; "between"; "over"; "under";
  "more"; "most"; "other"; "some"; "any"; "all"; "each"; "every";
  "about"; "up"; "out"; "into"; "through"; "during"; "against";
  "next"; "new"; "first"; "last"; "get"; "become"; "per"
].

(** [set.has(w)] and [array.includes(w)] on strings *)
Definition has (ws : list string) (w : string) : bool :=
  existsb (String.eqb w) ws.

(** A falsy [text] is the empty string (or an absent one, which every
    caller replaces by [''] before the call). *)
Definition extractKeywords (text : string) : list string :=
  if (String.length text =? 0)%nat then []
  else
    filter (fun w => (2 <? String.length w)%nat && negb (has STOP_WORDS w))
           (split_ws (strip_punctuation (toLowerCase text))).

(** The elements of [new Set(ws)], in insertion order. *)
Fixpoint Set_of (seen : list string) (ws : list string) : list string :=
  match ws with
  | [] => []
  | w :: rest =>
      if has seen w then Set_of seen rest else w :: Set_of (w :: seen) rest
  end.

End Keywords.

Section Correlation.

Context {A : Type} `{JSNumber A}.
Local Open Scope string_scope.
Local Open Scope js_scope.

(** *** pearsonCorrelation *)

Record Moments : Type := { num : A; denomA : A; denomB : A }.

(** One turn of the loop over [i < n], on the pair [(a[i], b[i])]. *)
Definition moments_step (meanA meanB : A) (m : Moments) (p : A * A) : Moments :=
  let da := fst p - meanA in
  let db := snd p - meanB in
  {| num := num m + da * db;
     denomA := denomA m + da * da;
     denomB := denomB m + db * db |}.

(** The loop, from [num = 0, denomA = 0, denomB = 0]. *)
Definition moments (meanA meanB : A) (ab : list (A * A)) : Moments :=
  fold_left (moments_step meanA meanB) ab
            {| num := ofZ 0; denomA := ofZ 0; denomB := ofZ 0 |}.

Definition pearsonCorrelation (seriesA seriesB : list A) : option A :=
  let n := Nat.min (List.length seriesA) (List.length seriesB) in
  if (n <? 10)%nat then None
  else
    let a := firstn n seriesA in
    let b := firstn n seriesB in
    let meanA := sum a / ofnat n in
    let meanB := sum b / ofnat n in
    let m := moments meanA meanB (combine a b) in
    let denom := Math_sqrt (denomA m * denomB m) in
    if denom === ofZ 0 then Some (ofZ 0)
    else Some (num m / denom).

(** *** normalizeSeries *)

(** [Math.min(...prices)] and [Math.max(...prices)] of an array with first
    element [p] and further elements [rest]. *)
Definition Math_min (p : A) (rest : list A) : A := fold_left Math_min2 rest p.
Definition Math_max (p : A) (rest : list A) : A := fold_left Math_max2 rest p.

Definition normalizeSeries (prices : list A) : list A :=
  match prices with
  | [] => []
  | p0 :: rest =>
      let min := Math_min p0 rest in
      let max := Math_max p0 rest in
      let range := max - min in
      if range === ofZ 0 then map (fun _ => ofZ 50) prices
      else map (fun p => ((p - min) / range) * ofZ 100) prices
  end.

(** *** keywordSimilarity *)

Definition keywordSimilarity (kwA kwB : list string) : A :=
  if (List.length kwA =? 0)%nat || (List.length kwB =? 0)%nat then ofZ 0
  else
    let setA := Keywords.Set_of [] kwA in
    let setB := Keywords.Set_of [] kwB in
    let intersection := List.length (filter (Keywords.has setB) setA) in
    let union := List.length (Keywords.Set_of [] (kwA ++ kwB)) in
    if (union =? 0)%nat then ofZ 0 else ofnat intersection / ofnat union.

(** *** computeRelatedness *)

Record Relatedness : Type := { score : A; reason : string }.

(** [s || ''] *)
Definition or_blank (s : option string) : string :=
  match s with Some t => t | None => "" end.

(** [a && a === b] on optional strings *)
Definition same_nonempty (a b : option string) : bool :=
  match a, b with
  | Some x, Some y => negb (String.length x =? 0)%nat && String.eqb x y
  | _, _ => false
  end.

Definition computeRelatedness (target candidate : Market A) : Relatedness :=
  let score := ofZ 0 in
  let reason := "" in
  let '(score, reason) :=
    if same_nonempty (event_ticker target) (event_ticker candidate)
    then (score + ofZ 8 / ofZ 10, "SAME EVENT")
    else (score, reason) in
  let kwTarget :=
    Keywords.extractKeywords
      (or_blank (title target) ++ " " ++ or_blank (event_title target)) in
  let kwCand :=
    Keywords.extractKeywords
      (or_blank (title candidate) ++ " " ++ or_blank (event_title candidate)) in
  let kwSim := keywordSimilarity kwTarget kwCand in
  let '(score, reason) :=
    if kwSim >? ofZ 0 then
      (score + kwSim * (ofZ 6 / ofZ 10),
       if (String.length reason =? 0)%nat
       then "TOPIC " ++ toFixed0 (kwSim * ofZ 100) ++ "%"
       else reason)
    else (score, reason) in
  let pTarget := last_price target in
  let pCand := last_price candidate in
  let score :=
    match pTarget, pCand with
    | Some pt, Some pc =>
        let priceDist := Math_abs (pt - pc) / ofZ 100 in
        score + (ofZ 1 - priceDist) * (ofZ 1 / ofZ 10)
    | _, _ => score
    end in
  {| score := score; reason := reason |}.

End Correlation.

Arguments Moments A : clear implicits.
Arguments Relatedness A : clear implicits.

(** ** The rest of api/stats.js, api/kalshi.js and the components *)

(** *** Strings and arrays *)

Module Text.

Local Open Scope string_scope.

(** [s.startsWith(p)] *)
Fixpoint startsWith (s p : string) {struct p} : bool :=
  match p with
  | EmptyString => true
  | String c p' =>
      match s with
      | EmptyString => false
      | String d s' => Ascii.eqb c d && startsWith s' p'
      end
  end.

(** [s.includes(t)] *)
Fixpoint includes (s t : string) : bool :=
  startsWith s t
  || match s with
     | EmptyString => false
     | String _ s' => includes s' t
     end.

Definition toUpperCase_char (c : ascii) : ascii :=
  if (97 <=? Keywords.code c)%nat && (Keywords.code c <=? 122)%nat
  then ascii_of_nat (Keywords.code c - 32) else c.

Definition toUpperCase (s : string) : string :=
  string_of_list_ascii (map toUpperCase_char (list_ascii_of_string s)).

(** [s.trimStart()], [s.trimEnd()] and [s.trim()], over the ASCII white
    space. *)
Fixpoint trimStart (s : string) : string :=
  match s with
  | EmptyString => EmptyString
  | String c rest => if Keywords.is_space c then trimStart rest else s
  end.

Definition reverse (s : string) : string :=
  string_of_list_ascii (rev (list_ascii_of_string s)).

Definition trimEnd (s : string) : string := reverse (trimStart (reverse s)).

Definition trim (s : string) : string := trimEnd (trimStart s).

(** [a === b] on values that are a string or undefined. *)
Definition strict_eq (a b : option string) : bool :=
  match a, b with
  | Some x, Some y => String.eqb x y
  | None, None => true
  | _, _ => false
  end.

End Text.

Section Arrays.

Context {A : Type} `{JSNumber A} {X : Type}.
Local Open Scope js_scope.

(** [xs.sort(compare)] for a comparator that orders consistently: the
    arrangement in which [x] stands before [y] whenever [compare x y < 0],
    and in their original order when [compare x y] is 0 (the sort is
    stable).  It is built by inserting each element, from the last one on,
    before the first element it need not follow. *)
Fixpoint sort_insert (compare : X -> X -> A) (x : X) (sorted : list X) : list X :=
  match sorted with
  | [] => [x]
  | y :: rest =>
      if compare x y >? ofZ 0 then y :: sort_insert compare x rest
      else x :: sorted
  end.

Definition Array_sort (compare : X -> X -> A) (xs : list X) : list X :=
  fold_right (sort_insert compare) [] xs.

End Arrays.

Section Components.

Context {A : Type} `{JSNumber A}.
Local Open Scope string_scope.
Local Open Scope js_scope.

(** A market object as the tables hold it: the fields the relatedness
    scorer reads, the ticker and the volume. *)
Record MarketRow : Type := {
  ticker : option string;
  volume : option A;
  market : Market A
}.

(** [m.volume ?? 0] *)
Definition volumeOr0 (m : MarketRow) : A :=
  match volume m with Some v => v | None => ofZ 0 end.

(** [xs.indexOf(v)] on numbers, searched from the index [i]: -1 when no
    element is [=== v]. *)
Fixpoint indexOf_from (xs : list A) (v : A) (i : Z) : Z :=
  match xs with
  | [] => (-1)%Z
  | x :: rest => if x === v then i else indexOf_from rest v (i + 1)%Z
  end.

Definition indexOf (xs : list A) (v : A) : Z := indexOf_from xs v 0.

End Components.

Arguments MarketRow A : clear implicits.

(** *** computeVolumeAnalysis (api/stats.js) *)

Module VolumeAnalysis.
Section VolumeAnalysis.

Context {A : Type} `{JSNumber A}.
Local Open Scope js_scope.

Record Result : Type := {
  volume : A;
  avgVolume : A;
  relativeVolume : A;
  volumeRank : Z;
  totalMarkets : nat;
  isHotVolume : bool
}.

Definition computeVolumeAnalysis (market : MarketRow A) (allMarkets : list (MarketRow A))
  : option Result :=
  let volumes := filter (fun v => v >? ofZ 0) (map volumeOr0 allMarkets) in
  if (List.length volumes =? 0)%nat then None
  else
    let avg := sum volumes / ofnat (List.length volumes) in
    let vol := volumeOr0 market in
    let relativeVolume := if avg >? ofZ 0 then vol / avg else ofZ 0 in
    let sorted := Array_sort (fun a b => b - a) volumes in
    let rank := (indexOf sorted vol + 1)%Z in
    Some {| volume := vol;
            avgVolume := Math_round avg;
            relativeVolume := round2 relativeVolume;
            volumeRank := rank;
            totalMarkets := List.length volumes;
            isHotVolume := relativeVolume >? ofZ 2 |}.

End VolumeAnalysis.
Arguments Result A : clear implicits.
End VolumeAnalysis.

(** *** The scans of components/Scanner.jsx and of CorrelationChart (App.jsx) *)

(** An event with its nested markets. *)
Module Ev.

Record Event (A : Type) : Type := {
  event_ticker : option string;
  title : option string;
  markets : option (list (MarketRow A))
}.

Arguments event_ticker {A} _.
Arguments title {A} _.
Arguments markets {A} _.

End Ev.

Section Scan.

Context {A : Type} `{JSNumber A}.
Local Open Scope string_scope.
Local Open Scope js_scope.

(** [ev.markets || []] *)
Definition marketsOf (ev : Ev.Event A) : list (MarketRow A) :=
  match Ev.markets ev with Some ms => ms | None => [] end.

(** [{ ...m, event_title: ev.title, event_ticker: ev.event_ticker }] *)
Definition withEvent (ev : Ev.Event A) (m : MarketRow A) : MarketRow A :=
  {| ticker := ticker m;
     volume := volume m;
     market := {| event_ticker := Ev.event_ticker ev;
                  title := title (market m);
                  event_title := Ev.title ev;
                  last_price := last_price (market m) |} |}.

(** The two loops of loadAll over the events of a page and their markets. *)
Definition flattenEvents (evts : list (Ev.Event A)) : list (MarketRow A) :=
  flat_map (fun ev => map (withEvent ev) (marketsOf ev)) evts.

(** The arbitrage scan of loadAll: the events whose markets are mispriced,
    each with the result of detectArbitrage. *)
Definition scanArbitrage (events : list (Ev.Event A))
  : list (Arbitrage A * Ev.Event A) :=
  flat_map
    (fun ev =>
       match detectArbitrage (Some (map market (marketsOf ev))) with
       | Some arb => if isMispriced arb then [(arb, ev)] else []
       | None => []
       end)
    events.

(** [{ ...m, score, reason }]: a market with its relatedness. *)
Definition Scored : Type := MarketRow A * Relatedness A.

Definition scoreOf (s : Scored) : A := score (snd s).

(** [(a, b) => b.score - a.score] *)
Definition byScoreDescending (a b : Scored) : A := scoreOf b - scoreOf a.

(** Step 1 of runScan: the markets other than the reference, scored
    against it, those scoring above 0.01, by descending score, the first
    30. *)
Definition scoreAll (ref : MarketRow A) (allMarkets : list (MarketRow A))
  : list Scored :=
  firstn 30
    (Array_sort byScoreDescending
       (filter (fun m => scoreOf m >? ofZ 1 / ofZ 100)
          (map (fun m => (m, computeRelatedness (market ref) (market m)))
             (filter (fun m => negb (Text.strict_eq (ticker m) (ticker ref)))
                allMarkets)))).

(** [findRef]: the first market whose ticker is the input, trimmed and in
    upper case, or else the first whose ticker contains it. *)
Definition findRef (allMarkets : list (MarketRow A)) (tickerInput : string)
  : option (MarketRow A) :=
  let t := Text.toUpperCase (Text.trim tickerInput) in
  match find (fun m => Text.strict_eq (ticker m) (Some t)) allMarkets with
  | Some m => Some m
  | None =>
      find (fun m => match ticker m with
                     | Some s => Text.includes s t
                     | None => false
                     end) allMarkets
  end.

(** CorrelationChart, step 1: the markets of the events other than the
    chart's own. *)
Definition chartMarkets (ticker0 : string) (events : list (Ev.Event A))
  : list (MarketRow A) :=
  flat_map
    (fun ev =>
       map (withEvent ev)
           (filter (fun m => negb (Text.strict_eq (ticker m) (Some ticker0)))
                   (marketsOf ev)))
    events.

(** CorrelationChart, steps 2 and 3: every market scored against
    [{ ticker, title, event_ticker: eventTicker, last_price: null }], sorted
    by descending score; of those scoring above 0.05 the first 8
    (MAX_RESULTS). *)
Definition topRelated (title0 eventTicker : option string)
           (allMarkets : list (MarketRow A)) : list Scored :=
  let targetInfo :=
    {| event_ticker := eventTicker; title := title0;
       event_title := None; last_price := None |} in
  let scored :=
    Array_sort byScoreDescending
      (map (fun m => (m, computeRelatedness targetInfo (market m))) allMarkets) in
  firstn 8 (filter (fun m => scoreOf m >? ofZ 5 / ofZ 100) scored).

End Scan.

(** *** categorizeEvent (components/MarketTable.jsx) *)

Module Category.

Local Open Scope string_scope.

Definition PARLAY_PREFIXES : list string :=
  ["KXMVESPORTSMULTIGAME"; "KXMVENBASINGLEGAME"].

(** The alternatives of the four patterns; each is a plain word, so a
    pattern matches a text when the text contains one of its words. *)
Definition sports_words : list string :=
  ["nba"; "nfl"; "nhl"; "mlb"; "sport"; "game"; "score"; "point"; "touchdown";
   "rebound"].

Definition politics_words : list string :=
  ["president"; "senate"; "congress"; "elect"; "governor"; "politic"; "trump";
   "biden"; "party"; "vote"; "speaker"; "leader"; "g7"].

Definition finance_words : list string :=
  ["s&p"; "nasdaq"; "stock"; "index"; "fed "; "rate"; "inflation"; "gdp";
   "unemployment"; "ipo"; "market share"; "ev share"; "bitcoin"; "crypto"].

Definition science_words : list string :=
  ["mars"; "fusion"; "climate"; "earthquake"; "volcano"; "fda"; "cure"; "ai ";
   "robot"].

(** [/w1|w2|.../i.test(t)] on a text in lower case *)
Definition test (words : list string) (t : string) : bool :=
  existsb (Text.includes t) words.

Definition categorizeEvent (ticker title : string) : string :=
  let t := Keywords.toLowerCase (ticker ++ " " ++ title) in
  if existsb (Text.startsWith ticker) PARLAY_PREFIXES then "sports"
  else if test sports_words t then "sports"
  else if test politics_words t then "politics"
  else if test finance_words t then "finance"
  else if test science_words t then "science"
  else "culture".

End Category.

(** *** fetchAllOpenMarkets (api/kalshi.js) *)

Module Pagination.
Section Pagination.

(** A market as the server sends it. *)
Variable M : Type.

(** The answer to a request for a page: the markets and the cursor of the
    next page, both optional. *)
Record Page : Type := {
  markets : option (list M);
  cursor : option string
}.

(** The server: what the [k]-th request, made with a cursor, is answered
    with; [None] is a request that fails ([fetchMarkets] throws). *)
Variable fetchMarkets : nat -> option string -> option Page.

Definition MAX_PAGES : nat := 5.

(** [data.cursor || null]: an empty cursor counts as none. *)
Definition nextCursor (data : Page) : option string :=
  match cursor data with
  | Some c => if (String.length c =? 0)%nat then None else Some c
  | None => None
  end.

(** The do-while loop with [remaining = MAX_PAGES - pages] turns still
    allowed, the body included; it returns the cursors it requested and the
    markets, or [None] when a request failed. *)
Fixpoint pages_loop (remaining : nat) (k : nat) (cur : option string)
         (allMarkets : list M) (asked : list (option string))
  : list (option string) * option (list M) :=
  match remaining with
  | O => (asked, Some allMarkets)
  | S remaining' =>
      match fetchMarkets k cur with
      | None => (asked ++ [cur], None)
      | Some data =>
          let list := match markets data with Some l => l | None => [] end in
          let allMarkets' := allMarkets ++ list in
          match nextCursor data, remaining' with
          | Some c, S _ => pages_loop remaining' (S k) (Some c) allMarkets' (asked ++ [cur])
          | _, _ => (asked ++ [cur], Some allMarkets')
          end
      end
  end.

Definition fetchAllOpenMarkets : list (option string) * option (list M) :=
  pages_loop MAX_PAGES 0 None [] [].

End Pagination.
Arguments markets {M} _.
Arguments cursor {M} _.
End Pagination.

(** *** The sorted view of components/Scanner.jsx *)

Module View.
Section View.

Context {A : Type} `{JSNumber A}.
Local Open Scope string_scope.
Local Open Scope js_scope.

(** A result of the scan as the table reads it: the score, which every
    result has, and the statistics and the volume, which may be missing. *)
Record Entry : Type := {
  score : A;
  divergence : option A;
  spreadPct : option A;
  velocity : option A;
  volume : option A
}.

(** [x ?? d] *)
Definition orElse (x : option A) (d : A) : A :=
  match x with Some v => v | None => d end.

(** The value [va] of the switch on [sortKey]. *)
Definition sortValue (sortKey : string) (a : Entry) : A :=
  if String.eqb sortKey "score" then score a
  else if String.eqb sortKey "divergence" then orElse (divergence a) (ofZ 0)
  else if String.eqb sortKey "spreadPct" then orElse (spreadPct a) (ofZ 999)
  else if String.eqb sortKey "momentum" then Math_abs (orElse (velocity a) (ofZ 0))
  else if String.eqb sortKey "volume" then orElse (volume a) (ofZ 0)
  else ofZ 0.

Definition compareEntries (sortKey sortDir : string) (a b : Entry) : A :=
  let va := sortValue sortKey a in
  let vb := sortValue sortKey b in
  if String.eqb sortDir "desc" then vb - va else va - vb.

(** [a >= b] *)
Definition geb (a b : A) : bool := (b <? a) || (a === b).

Definition sorted (sortKey sortDir : string) (minScore : A) (results : list Entry)
  : list Entry :=
  filter (fun r => geb (score r) minScore)
         (Array_sort (compareEntries sortKey sortDir) results).

End View.
Arguments Entry A : clear implicits.
End View.

(** *** The filters and the sort state of components/MarketTable.jsx *)

Module Table.

Local Open Scope string_scope.

(** A market of the table: the fields the filters read. *)
Record Row : Type := {
  ticker : option string;
  title : option string;
  event_title : option string;
  category : string
}.

(** [PARLAY_PREFIXES.some(p => m.ticker?.startsWith(p))] *)
Definition hasParlayPrefix (m : Row) : bool :=
  existsb (fun p => match ticker m with
                    | Some s => Text.startsWith s p
                    | None => false
                    end)
          Category.PARLAY_PREFIXES.

Definition catFiltered (categoryFilter : string) (markets : list Row) : list Row :=
  if String.eqb categoryFilter "all"
  then filter (fun m => negb (hasParlayPrefix m)) markets
  else if String.eqb categoryFilter "sports"
  then filter (fun m => String.eqb (category m) "sports") markets
  else filter (fun m => String.eqb (category m) categoryFilter) markets.

(** [field?.toLowerCase().includes(searchQuery.toLowerCase())] *)
Definition mentions (searchQuery : string) (field : option string) : bool :=
  match field with
  | Some s => Text.includes (Keywords.toLowerCase s) (Keywords.toLowerCase searchQuery)
  | None => false
  end.

Definition filtered (categoryFilter searchQuery : string) (markets : list Row)
  : list Row :=
  let catFiltered := catFiltered categoryFilter markets in
  if (String.length searchQuery =? 0)%nat then catFiltered
  else filter (fun m => mentions searchQuery (title m)
                        || mentions searchQuery (ticker m)
                        || mentions searchQuery (event_title m))
              catFiltered.

(** [handleSort] on the state [(sortField, sortDir)]. *)
Definition handleSort (state : string * string) (field : string) : string * string :=
  let (sortField, sortDir) := state in
  if String.eqb sortField field
  then (sortField, if String.eqb sortDir "asc" then "desc" else "asc")
  else (field, "desc").

End Table.

(** ** Vocabulary of the properties and inputs of the examples *)

#[local] Set Warnings "-inexact-float".

(** [x] is [y] up to [tol], on doubles. *)
Definition approx (x y tol : PrimFloat.float) : Prop :=
  PrimFloat.leb (PrimFloat.abs (PrimFloat.sub x y)) tol = true.

(** The mean of a list, [reduce(...) / length]. *)
Definition mean {A : Type} `{JSNumber A} (xs : list A) : A :=
  div (sum xs) (ofnat (List.length xs)).

(** The momentum example of the specification. *)
Module MomentumExample.

(** A trade that carries [p] as its [yes_price]. *)
Definition trade (p : PrimFloat.float) : Trade PrimFloat.float :=
  {| yes_price := Some p; price := None |}.

(** Prices of the trades, newest first. *)
Definition prices : list PrimFloat.float := [70; 68; 65; 60; 55; 50]%float.

Definition trades : list (Trade PrimFloat.float) := map trade prices.

(** The same prices over the exact numbers. *)
Definition prices_exact : list R := [70; 68; 65; 60; 55; 50]%R.

End MomentumExample.

(** The order book example of the specification. *)
Module SpreadExample.

Definition orderbook : Orderbook PrimFloat.float :=
  {| yes := Some [(45, 100)%float]; no := Some [(40, 50)%float] |}.

(** The same order book over the exact numbers. *)
Definition orderbook_exact : Orderbook R :=
  {| yes := Some [(45, 100)%R]; no := Some [(40, 50)%R] |}.

End SpreadExample.

(** A trade record with neither [yes_price] nor [price]. *)
Definition unpriced {A : Type} : Trade A := {| yes_price := None; price := None |}.

(** A trade record with the price 0. *)
Definition zero_priced {A : Type} `{JSNumber A} : Trade A :=
  {| yes_price := Some (ofZ 0); price := None |}.

(** A series of trades at 90 with one unpriced trade. *)
Module UnpricedExample.

Definition at90 : Trade PrimFloat.float :=
  {| yes_price := Some 90%float; price := None |}.

(** Five trades at 90, and the same with an unpriced trade in front. *)
Definition priced : list (Trade PrimFloat.float) := [at90; at90; at90; at90; at90].
Definition with_unpriced : list (Trade PrimFloat.float) := unpriced :: priced.

End UnpricedExample.

(** What the arbitrage detector is specified with. *)
Module ArbitrageSpec.

Local Open Scope R_scope.


Definition price_of (m : Market R) : R :=
  match last_price m with Some p => p | None => 0 end.

(** The sum of the prices of a list of markets. *)
Definition sum_prices (ms : list (Market R)) : R :=
  fold_right Rplus 0 (map price_of ms).

(** Markets priced at the given integers, on doubles. *)
Definition float_markets (prices : list Z) : list (Market PrimFloat.float) :=
  map (fun p => {| event_ticker := Some "EV"%string; title := None;
                   event_title := None; last_price := Some (ofZ p) |})
      prices.

End ArbitrageSpec.

(** An event whose prices sum to 100. *)
Module ArbitrageExample.

(** Two markets of one event, priced 60 and 40. *)
Definition markets : list (Market R) :=
  [ {| event_ticker := Some "EV"%string; title := None; event_title := None;
       last_price := Some 60%R |};
    {| event_ticker := Some "EV"%string; title := None; event_title := None;
       last_price := Some 40%R |} ].

End ArbitrageExample.

(** Mean and variance of a series of exact numbers. *)
Module Statistics.

Local Open Scope R_scope.

Definition total (xs : list R) : R := fold_right Rplus 0 xs.

Definition avg (xs : list R) : R := total xs / INR (List.length xs).

(** The sum of the squared deviations from a value [m]. *)
Definition sq_dev_from (m : R) (xs : list R) : R :=
  total (map (fun x => (x - m) * (x - m)) xs).


(** A series with two different values. *)
Definition non_constant (xs : list R) : Prop :=
  exists x y, In x xs /\ In y xs /\ x <> y.

End Statistics.

(** Series of nine and ten points. *)
Module PearsonExample.






End PearsonExample.

(** The terms of the relatedness score, and markets to try it on. *)
Module RelatednessSpec.

Local Open Scope R_scope.
Local Open Scope string_scope.

(** The keyword similarity of the titles of two markets. *)
Definition titleSimilarity {A : Type} `{JSNumber A} (target candidate : Market A) : A :=
  keywordSimilarity
    (Keywords.extractKeywords
       (or_blank (title target) ++ " " ++ or_blank (event_title target)))
    (Keywords.extractKeywords
       (or_blank (title candidate) ++ " " ++ or_blank (event_title candidate))).

(** The three terms of the score. *)
Definition event_term (target candidate : Market R) : R :=
  if same_nonempty (event_ticker target) (event_ticker candidate) then 8 / 10 else 0.

Definition topic_term (target candidate : Market R) : R :=
  let kwSim := titleSimilarity target candidate in
  if Rlt_dec 0 kwSim then kwSim * (6 / 10) else 0.

Definition price_term (target candidate : Market R) : R :=
  match last_price target, last_price candidate with
  | Some pt, Some pc => (1 - Rabs (pt - pc) / 100) * (1 / 10)
  | _, _ => 0
  end.

(** The data model of a market's price: absent, or an integer of 0..100. *)
Definition price_in_range (m : Market R) : Prop :=
  forall p, last_price m = Some p -> exists z : Z, p = IZR z /\ (0 <= z <= 100)%Z.

(** The prices of two markets, when both are known, are at most 100 apart. *)
Definition prices_within_100 (target candidate : Market R) : Prop :=
  forall pt pc,
    last_price target = Some pt -> last_price candidate = Some pc ->
    Rabs (pt - pc) <= 100.





(** Two markets of the event "EV" with the same words in their titles. *)
Definition near_target : Market R :=
  {| event_ticker := Some "EV"; title := Some "Fed raise rates";
     event_title := None; last_price := Some 30%R |}.

Definition near_candidate : Market R :=
  {| event_ticker := Some "EV"; title := Some "Fed raise rates";
     event_title := None; last_price := Some 90%R |}.

End RelatednessSpec.

(** ** Properties *)

(** *** The exact instance: comparisons and rounding *)

Section ExactFacts.

Local Open Scope R_scope.

Lemma R_ltb_true (x y : R) : ltb x y = true <-> x < y.
Proof.
  cbn. unfold Exact.ltb. destruct (Rlt_dec x y); split; intros; try easy.
Qed.

Lemma R_ltb_false (x y : R) : ltb x y = false <-> y <= x.
Proof.
  cbn. unfold Exact.ltb. destruct (Rlt_dec x y); split; intros; try easy; lra.
Qed.

Lemma R_eqb_true (x y : R) : eqb x y = true <-> x = y.
Proof.
  cbn. unfold Exact.eqb. destruct (Req_dec_T x y); split; intros; try easy.
Qed.

Lemma R_eqb_false (x y : R) : eqb x y = false <-> x <> y.
Proof.
  cbn. unfold Exact.eqb. destruct (Req_dec_T x y); split; intros; try easy.
Qed.

Lemma roundZ_unique (x : R) (z : Z) :
  IZR z <= x + / 2 < IZR z + 1 -> Exact.roundZ x = z.
Proof.
  intros Hz. unfold Exact.roundZ. symmetry. apply Int_part_spec. lra.
Qed.

(** Rounding to one decimal, from the integer it rounds to. *)
Lemma round1_at (x : R) (z : Z) :
  IZR z <= x * 10 + / 2 < IZR z + 1 -> round1 x = IZR z / 10.
Proof.
  intros Hz. unfold round1. cbn. unfold Exact.round.
  now rewrite (roundZ_unique (x * 10) z).
Qed.



(** Rounding to one decimal gives a number of tenths at most 0.05 away. *)
Lemma round1_nearest (x : R) :
  (exists z : Z, round1 x = IZR z / 10) /\ Rabs (round1 x - x) <= / 20.
Proof.
  unfold round1. cbn. unfold Exact.round, Exact.roundZ.
  split; [eexists; reflexivity |].
  destruct (base_Int_part (x * 10 + / 2)) as [Hle Hgt].
  apply Rabs_le. lra.
Qed.

Lemma ofnat_INR (n : nat) : ofnat n = INR n.
Proof. unfold ofnat. cbn. symmetry. apply INR_IZR_INZ. Qed.

End ExactFacts.

(** *** The embedding on doubles: literals, rounding, keywords *)

(** The decimal literals of the source are the quotients that stand for
    them. *)
Remark decimal_literals_on_doubles :
  div (ofZ 8) (ofZ 10) = 0.8%float
  /\ div (ofZ 6) (ofZ 10) = 0.6%float
  /\ div (ofZ 1) (ofZ 10) = 0.1%float
  /\ ofZ (-1) = (-1)%float
  /\ ofZ 100 = 100%float.
Proof. repeat split. Qed.

Remark Math_round_on_doubles :
  Math_round 2.5%float = 3%float
  /\ Math_round (-2.5)%float = (-2)%float
  /\ Math_round 126.66666666666667%float = 127%float
  /\ Math_round 0.49999999999999994%float = 0%float
  /\ Math_round (-0.2)%float = (-0)%float
  /\ toFixed0 59.99999999999999%float = "60"%string
  /\ toFixed0 0.5%float = "1"%string.
Proof. repeat split. Qed.

(** The keyword example of the specification. *)
Remark extractKeywords_example :
  Keywords.extractKeywords "The Fed Will Raise Rates"
  = ["fed"; "raise"; "rates"]%string.
Proof. reflexivity. Qed.

Remark split_ws_example :
  Keywords.split_ws " a  b "%string = [""; "a"; "b"; ""]%string.
Proof. reflexivity. Qed.

(** Without a common event the reason is the topic's, with the similarity
    as a percentage: three of five keywords are shared here. *)
Remark topic_reason_example :
  computeRelatedness
    {| event_ticker := None; title := Some "Will the Fed raise rates in June"%string;
       event_title := None; last_price := Some 30%float |}
    {| event_ticker := Some "E2"%string; title := Some "Fed raise rates by 50bps?"%string;
       event_title := None; last_price := Some 90%float |}
  = {| score := 0.4%float; reason := "TOPIC 60%" |}.
Proof. vm_compute. reflexivity. Qed.

(** *** Momentum: the example of the specification *)

Lemma computeMomentum_halves {A : Type} `{JSNumber A} (ts : list (Trade A)) :
  (4 <= List.length ts)%nat ->
  let ps := map tradePrice ts in
  let half := (List.length ts / 2)%nat in
  exists r,
    computeMomentum (Some ts) = Some r
    /\ List.length (firstn half ps) = half
    /\ List.length (skipn half ps) = (List.length ts - half)%nat
    /\ firstn half ps ++ skipn half ps = ps
    /\ magnitude r
       = round1 (Math_abs (sub (mean (firstn half ps)) (mean (skipn half ps)))).
Proof.
  intros Hlen ps half.
  assert (Hps : List.length ps = List.length ts) by apply length_map.
  assert (Hhalf : (half <= List.length ps)%nat).
  { rewrite Hps. apply Nat.Div0.div_le_upper_bound. lia. }
  unfold computeMomentum.
  destruct (Nat.ltb_spec (List.length ts) 4) as [Hlt | _]; [lia |].
  eexists. split; [reflexivity |].
  fold ps. rewrite Hps. fold half.
  repeat split.
  - now apply firstn_length_le.
  - rewrite length_skipn. lia.
  - apply firstn_skipn.
Qed.

(** C1 (as the specification words it) fails: on the trades priced
    [70, 68, 65, 60, 55, 50] (newest first) the direction is "UP", but the
    magnitude returned is 12.7, more than 3 away from 9.3: the halves are
    [70, 68, 65] and [60, 55, 50], with means 67.67 and 55. *)
Lemma momentum_example_magnitude_not_9_3 :
  ~ (exists r,
        computeMomentum (Some MomentumExample.trades) = Some r
        /\ direction r = "UP"%string
        /\ approx (magnitude r) 9.3 3).
Proof.
  intros (r & Hr & _ & Hm).
  vm_compute in Hr. injection Hr as <-.
  vm_compute in Hm. discriminate Hm.
Qed.

(** C1, amended: a trade list of at least four trades is split into the
    first floor(n/2) prices and the remaining ones, and the magnitude is the
    absolute difference of the two means, rounded to one decimal; for every
    trade list whose prices are [70, 68, 65, 60, 55, 50] (newest first),
    whichever of [yes_price] and [price] carries them, computeMomentum
    returns direction "UP", magnitude 12.7, recentAvg 67.7 and olderAvg 55. *)
Theorem computeMomentum_example :
  (forall (A : Type) (N : JSNumber A) (ts : list (Trade A)),
      (4 <= List.length ts)%nat ->
      let ps := map tradePrice ts in
      let half := (List.length ts / 2)%nat in
      exists r,
        computeMomentum (Some ts) = Some r
        /\ List.length (firstn half ps) = half
        /\ List.length (skipn half ps) = (List.length ts - half)%nat
        /\ firstn half ps ++ skipn half ps = ps
        /\ magnitude r
           = round1 (Math_abs (sub (mean (firstn half ps)) (mean (skipn half ps)))))
  /\ (forall ts : list (Trade PrimFloat.float),
         map tradePrice ts = MomentumExample.prices ->
         exists r,
           computeMomentum (Some ts) = Some r
           /\ direction r = "UP"%string
           /\ magnitude r = 12.7%float
           /\ recentAvg r = 67.7%float
           /\ olderAvg r = 55%float
           /\ tradeCount r = 6%nat)
  /\ (forall ts : list (Trade R),
         map tradePrice ts = MomentumExample.prices_exact ->
         exists r,
           computeMomentum (Some ts) = Some r
           /\ direction r = "UP"%string
           /\ magnitude r = (127 / 10)%R
           /\ recentAvg r = (677 / 10)%R
           /\ olderAvg r = 55%R
           /\ tradeCount r = 6%nat).
Proof.
  split; [| split].
  - intros A N ts Hlen. now apply computeMomentum_halves.
  - intros ts Hps.
    assert (Hlen : List.length ts = 6%nat).
    { rewrite <- (length_map tradePrice ts), Hps. reflexivity. }
    unfold computeMomentum, slope_numerator, slope_denominator.
    rewrite Hlen, Hps.
    eexists. split; [reflexivity |].
    vm_compute. repeat split.
  - intros ts Hps.
    assert (Hlen : List.length ts = 6%nat).
    { rewrite <- (length_map tradePrice ts), Hps. reflexivity. }
    unfold computeMomentum. rewrite Hlen, Hps.
    change (6 <? 4)%nat with false. cbv zeta.
    unfold MomentumExample.prices_exact.
    change (List.length [70; 68; 65; 60; 55; 50]%R / 2)%nat with 3%nat.
    cbn [firstn skipn List.length]. unfold sum, ofnat.
    cbn [fold_left Z.of_nat Pos.of_succ_nat Pos.succ
         ofZ add sub div ltb Math_abs R_JSNumber].
    set (recent := ((0 + 70 + 68 + 65) / 3)%R).
    set (older := ((0 + 60 + 55 + 50) / 3)%R).
    assert (Hrecent : (recent = 203 / 3)%R) by (unfold recent; lra).
    assert (Holder : (older = 55)%R) by (unfold older; lra).
    assert (Hup : Exact.ltb 1 (recent - older) = true).
    { apply (proj2 (R_ltb_true 1%R (recent - older)%R)). lra. }
    rewrite Hup. eexists. split; [reflexivity |].
    cbn [direction magnitude recentAvg olderAvg tradeCount].
    repeat split.
    + rewrite Rabs_pos_eq by lra. apply (round1_at _ 127). lra.
    + apply (round1_at _ 677). lra.
    + transitivity (IZR 550 / 10)%R; [apply (round1_at _ 550) |]; lra.
Qed.

Lemma computeMomentum_example_witness :
  exists r,
    computeMomentum (Some MomentumExample.trades) = Some r
    /\ direction r = "UP"%string
    /\ magnitude r = 12.7%float
    /\ recentAvg r = 67.7%float
    /\ olderAvg r = 55%float
    /\ tradeCount r = 6%nat.
Proof.
  apply (proj1 (proj2 computeMomentum_example) MomentumExample.trades).
  reflexivity.
Defined.



(** *** Momentum: the regression denominator *)

Section RegressionIndexSums.

Context {A : Type} `{JSNumber A}.



End RegressionIndexSums.

Section RegressionExact.

Local Open Scope R_scope.

Lemma regression_sumX (ps : list R) : forall (i : nat) (s : Sums R),
  2 * sumX (regression ps i s)
  = 2 * sumX s + INR (List.length ps) * (2 * INR i + INR (List.length ps) - 1).
Proof.
  induction ps as [| p ps IH]; intros i s; cbn [regression List.length].
  - cbn. lra.
  - rewrite IH. cbn [sumX add R_JSNumber]. rewrite ofnat_INR, !S_INR. ring.
Qed.

Lemma regression_sumX2 (ps : list R) : forall (i : nat) (s : Sums R),
  6 * sumX2 (regression ps i s)
  = 6 * sumX2 s
    + INR (List.length ps)
      * (6 * INR i * INR i + 6 * INR i * (INR (List.length ps) - 1)
         + (INR (List.length ps) - 1) * (2 * INR (List.length ps) - 1)).
Proof.
  induction ps as [| p ps IH]; intros i s; cbn [regression List.length].
  - cbn. lra.
  - rewrite IH. cbn [sumX2 add mul R_JSNumber]. rewrite ofnat_INR, !S_INR. ring.
Qed.

(** n * sumX2 - sumX^2 = n^2 (n^2 - 1) / 12. *)
Lemma slope_denominator_closed_form (ps : list R) :
  let n := INR (List.length ps) in
  12 * slope_denominator ps = n * n * (n * n - 1).
Proof.
  intros n. unfold slope_denominator, sums.
  cbn [add sub mul R_JSNumber]. rewrite ofnat_INR. fold n.
  pose proof (regression_sumX ps 0 {| sumX := 0; sumY := 0; sumXY := 0; sumX2 := 0 |}) as HX.
  pose proof (regression_sumX2 ps 0 {| sumX := 0; sumY := 0; sumXY := 0; sumX2 := 0 |}) as HX2.
  cbn [sumX sumX2 INR ofZ R_JSNumber] in *. fold n in HX, HX2.
  set (X := sumX (regression ps 0 _)) in *.
  set (X2 := sumX2 (regression ps 0 _)) in *.
  assert (EX : X = n * (n - 1) / 2) by lra.
  assert (EX2 : X2 = n * ((n - 1) * (2 * n - 1)) / 6) by lra.
  rewrite EX, EX2. field.
Qed.

Lemma slope_denominator_pos (ps : list R) :
  (2 <= List.length ps)%nat -> 0 < slope_denominator ps.
Proof.
  intros Hlen. pose proof (slope_denominator_closed_form ps) as Hc.
  cbn zeta in Hc.
  assert (Hn : 2 <= INR (List.length ps)).
  { change 2 with (INR 2). now apply le_INR. }
  set (n := INR (List.length ps)) in *.
  assert (Hsq : 4 <= n * n) by nra.
  assert (Hprod : 0 < n * n * (n * n - 1)) by (apply Rmult_lt_0_compat; lra).
  lra.
Qed.

End RegressionExact.







(** *** Spread: the example of the specification *)

Lemma computeSpread_bestAsk {A : Type} `{JSNumber A}
      (ob : Orderbook A) (p q : A) (rest : list (Level (A := A))) :
  no ob = Some ((p, q) :: rest) ->
  exists r, computeSpread (Some ob) = Some r /\ bestAsk r = Some (sub (ofZ 100) p).
Proof.
  intros Hno. unfold computeSpread. rewrite Hno. cbn [or_empty top_price fst].
  destruct (top_price (or_empty (yes ob))); eexists; split; reflexivity.
Qed.

(** C8: for the order book {yes: [[45, 100]], no: [[40, 50]]} computeSpread
    returns bestBid 45, bestAsk 60, spread 15, midpoint 52.5 and a spreadPct
    within 0.005 of 28.57 (exactly 200/7 without rounding error); and for
    every order book whose no side is not empty, the best ask is 100 minus
    the price of the first level of the no side. *)
Theorem computeSpread_example :
  (exists r,
      computeSpread (Some SpreadExample.orderbook) = Some r
      /\ bestBid r = Some 45%float
      /\ bestAsk r = Some 60%float
      /\ spread r = Some 15%float
      /\ midpoint r = Some 52.5%float
      /\ depth r = 2%nat
      /\ exists pct, spreadPct r = Some pct /\ approx pct 28.57 0.005)
  /\ (exists r,
         computeSpread (Some SpreadExample.orderbook_exact) = Some r
         /\ bestBid r = Some 45%R
         /\ bestAsk r = Some (100 - 40)%R
         /\ spread r = Some (100 - 40 - 45)%R
         /\ midpoint r = Some ((45 + (100 - 40)) / 2)%R
         /\ spreadPct r = Some ((100 - 40 - 45) / ((45 + (100 - 40)) / 2) * 100)%R
         /\ ((100 - 40 - 45) / ((45 + (100 - 40)) / 2) * 100 = 200 / 7)%R)
  /\ (forall (A : Type) (N : JSNumber A) (ob : Orderbook A)
             (p q : A) (rest : list (Level (A := A))),
         no ob = Some ((p, q) :: rest) ->
         exists r,
           computeSpread (Some ob) = Some r
           /\ bestAsk r = Some (sub (ofZ 100) p)).
Proof.
  split; [| split].
  - eexists. split; [vm_compute; reflexivity |].
    cbn [bestBid bestAsk spread midpoint depth spreadPct].
    repeat split. eexists. split; [reflexivity |]. vm_compute. reflexivity.
  - unfold computeSpread, SpreadExample.orderbook_exact.
    cbn [yes no or_empty top_price fst List.length Nat.add].
    cbn [ofZ add sub mul div R_JSNumber].
    assert (Hmid : ltb 0%R ((45 + (100 - 40)) / 2)%R = true)
      by (apply R_ltb_true; lra).
    rewrite Hmid.
    eexists. split; [reflexivity |].
    cbn [bestBid bestAsk spread midpoint spreadPct].
    repeat split. lra.
  - intros A N ob p q rest Hno. now apply computeSpread_bestAsk with (q := q) (rest := rest).
Qed.

Lemma computeSpread_example_witness :
  exists r,
    computeSpread (Some SpreadExample.orderbook) = Some r
    /\ bestAsk r = Some (sub (ofZ 100) 40%float).
Proof.
  apply (proj2 (proj2 computeSpread_example) PrimFloat.float float_JSNumber
           SpreadExample.orderbook 40%float 50%float []).
  reflexivity.
Defined.

(** *** Trades without a price *)

Section PricesOnly.

Context {A : Type} `{JSNumber A}.

(** Both analyzers read a trade list through its prices only. *)
Lemma computeMomentum_prices (ts ts' : list (Trade A)) :
  map tradePrice ts = map tradePrice ts' ->
  computeMomentum (Some ts) = computeMomentum (Some ts').
Proof.
  intros Hmap.
  assert (Hlen : List.length ts = List.length ts').
  { rewrite <- (length_map tradePrice ts), Hmap. apply length_map. }
  unfold computeMomentum. now rewrite Hlen, Hmap.
Qed.

Lemma computeDivergence_prices (ts ts' cs cs' : list (Trade A)) :
  map tradePrice ts = map tradePrice ts' ->
  map tradePrice cs = map tradePrice cs' ->
  Divergence.computeDivergence (Some ts) (Some cs)
  = Divergence.computeDivergence (Some ts') (Some cs').
Proof.
  intros Ht Hc.
  assert (Hlt : List.length ts = List.length ts').
  { rewrite <- (length_map tradePrice ts), Ht. apply length_map. }
  assert (Hlc : List.length cs = List.length cs').
  { rewrite <- (length_map tradePrice cs), Hc. apply length_map. }
  unfold Divergence.computeDivergence. now rewrite Hlt, Hlc, Ht, Hc.
Qed.

Lemma unpriced_prices (before after : list (Trade A)) :
  map tradePrice (before ++ unpriced :: after)
  = map tradePrice before ++ ofZ 0 :: map tradePrice after.
Proof. now rewrite map_app. Qed.

Lemma zero_priced_prices (before after : list (Trade A)) :
  map tradePrice (before ++ zero_priced :: after)
  = map tradePrice before ++ ofZ 0 :: map tradePrice after.
Proof. now rewrite map_app. Qed.

End PricesOnly.

(** C10: in computeMomentum and computeDivergence a trade with neither
    yes_price nor price is not skipped: its price is 0, it stays in the
    price list at its position and in tradeCount, and both functions return
    what they return for a trade priced 0 in its place.  With one unpriced
    trade in front of five trades at 90, the momentum is "DOWN" with
    magnitude 30 and velocity 12.86 (not "FLAT", 0 and 0 as for the five
    priced trades alone) and the divergence from the five priced trades is
    30 (not 0). *)
Theorem unpriced_trade_counts_as_zero :
  (forall (A : Type) (N : JSNumber A), tradePrice (A := A) unpriced = ofZ 0)
  /\ (forall (A : Type) (N : JSNumber A) (before after : list (Trade A)),
         map tradePrice (before ++ unpriced :: after)
         = map tradePrice before ++ ofZ 0 :: map tradePrice after
         /\ computeMomentum (Some (before ++ unpriced :: after))
            = computeMomentum (Some (before ++ zero_priced :: after))
         /\ (forall r, computeMomentum (Some (before ++ unpriced :: after)) = Some r ->
                       tradeCount r = S (List.length before + List.length after))
         /\ (forall other : list (Trade A),
                Divergence.computeDivergence
                  (Some (before ++ unpriced :: after)) (Some other)
                = Divergence.computeDivergence
                    (Some (before ++ zero_priced :: after)) (Some other)
                /\ Divergence.computeDivergence
                     (Some other) (Some (before ++ unpriced :: after))
                   = Divergence.computeDivergence
                       (Some other) (Some (before ++ zero_priced :: after))))
  /\ (computeMomentum (Some UnpricedExample.with_unpriced)
      = Some {| direction := "DOWN"; magnitude := 30%float;
                recentAvg := 60%float; olderAvg := 90%float;
                tradeCount := 6; velocity := 12.86%float |}
      /\ computeMomentum (Some UnpricedExample.priced)
         = Some {| direction := "FLAT"; magnitude := 0%float;
                   recentAvg := 90%float; olderAvg := 90%float;
                   tradeCount := 5; velocity := 0%float |})
  /\ (Divergence.computeDivergence
        (Some UnpricedExample.with_unpriced) (Some UnpricedExample.priced)
      = Some {| Divergence.divergence := 30%float;
                Divergence.direction := "NEUTRAL";
                Divergence.targetDelta := (-30)%float;
                Divergence.candidateDelta := 0%float |}
      /\ Divergence.computeDivergence
           (Some UnpricedExample.priced) (Some UnpricedExample.priced)
         = Some {| Divergence.divergence := 0%float;
                   Divergence.direction := "NEUTRAL";
                   Divergence.targetDelta := 0%float;
                   Divergence.candidateDelta := 0%float |}).
Proof.
  split; [reflexivity |].
  split; [| split; split; vm_compute; reflexivity].
  intros A N before after.
  pose proof (unpriced_prices before after) as Hu.
  pose proof (zero_priced_prices before after) as Hz.
  split; [exact Hu |].
  split; [apply computeMomentum_prices; congruence |].
  split.
  - intros r Hr. unfold computeMomentum in Hr.
    destruct (List.length (before ++ unpriced :: after) <? 4)%nat; [discriminate |].
    injection Hr as <-. cbn [tradeCount].
    rewrite length_app. cbn [List.length]. lia.
  - intros other. split; apply computeDivergence_prices; congruence.
Qed.

Lemma unpriced_trade_counts_as_zero_witness :
  exists r,
    computeMomentum (Some UnpricedExample.with_unpriced) = Some r
    /\ tradeCount r = 6%nat.
Proof.
  eexists. split; [vm_compute; reflexivity |].
  apply (proj1 (proj2 (proj2
           (proj1 (proj2 unpriced_trade_counts_as_zero)
                  PrimFloat.float float_JSNumber [] UnpricedExample.priced)))).
  vm_compute. reflexivity.
Defined.

(** *** Arbitrage *)

Section ArbitrageExact.

Import ArbitrageSpec.
Local Open Scope R_scope.


Lemma priceOr0_priced (m : Market R) : hasPrice m = true -> priceOr0 m = price_of m.
Proof.
  unfold hasPrice, priceOr0, price_of, truthy.
  destruct (last_price m) as [p |]; [| reflexivity].
  rewrite R_ltb_true. cbn [ofZ R_JSNumber]. intros Hp.
  assert (Hne : eqb p 0 = false) by (apply R_eqb_false; lra).
  assert (Heq : eqb p p = true) by now apply R_eqb_true.
  now rewrite Hne, Heq.
Qed.

Lemma fold_priceOr0 (ms : list (Market R)) :
  (forall m, In m ms -> hasPrice m = true) ->
  forall acc : R,
    fold_left (fun sum m => add sum (priceOr0 m)) ms acc = acc + sum_prices ms.
Proof.
  unfold sum_prices.
  induction ms as [| m ms IH]; intros Hall acc; cbn [fold_left map fold_right].
  - lra.
  - rewrite IH by (intros; apply Hall; now right).
    rewrite priceOr0_priced by (apply Hall; now left).
    cbn [add R_JSNumber]. lra.
Qed.

Lemma total_of_priced (ms : list (Market R)) :
  fold_left (fun sum m => add sum (priceOr0 m)) (filter hasPrice ms) (ofZ 0)
  = sum_prices (filter hasPrice ms).
Proof.
  rewrite fold_priceOr0.
  - cbn [ofZ R_JSNumber]. lra.
  - intros m Hm. now apply filter_In in Hm.
Qed.

Lemma filter_length_le {X : Type} (f : X -> bool) (l : list X) :
  (List.length (filter f l) <= List.length l)%nat.
Proof.
  induction l as [| x l IH]; cbn [filter List.length]; [lia |].
  destruct (f x); cbn [List.length]; lia.
Qed.

Lemma detectArbitrage_exact (ms : list (Market R)) :
  let priced := filter hasPrice ms in
  let total := sum_prices priced in
  detectArbitrage (Some ms)
  = if (List.length priced <? 2)%nat then None
    else Some {| totalImpliedPct := round1 total;
                 overround := round1 (total - 100);
                 marketCount := List.length priced;
                 isMispriced := ltb 15 (Rabs (total - 100)) |}.
Proof.
  intros priced total. unfold detectArbitrage. cbv zeta.
  rewrite total_of_priced. fold priced. fold total.
  pose proof (filter_length_le hasPrice ms) as Hle. fold priced in Hle.
  destruct (Nat.ltb_spec (List.length ms) 2) as [Hms | Hms].
  - destruct (Nat.ltb_spec (List.length priced) 2); [reflexivity | lia].
  - reflexivity.
Qed.

End ArbitrageExact.




(** *** Normalization *)

Section NormalizeExact.

Local Open Scope R_scope.

Lemma fold_Rmin_le_acc (rest : list R) : forall acc, fold_left Rmin rest acc <= acc.
Proof.
  induction rest as [| a rest IH]; intros acc; cbn [fold_left]; [lra |].
  specialize (IH (Rmin acc a)). pose proof (Rmin_l acc a). lra.
Qed.

Lemma fold_Rmax_ge_acc (rest : list R) : forall acc, acc <= fold_left Rmax rest acc.
Proof.
  induction rest as [| a rest IH]; intros acc; cbn [fold_left]; [lra |].
  specialize (IH (Rmax acc a)). pose proof (Rmax_l acc a). lra.
Qed.

Lemma Math_min_lower (rest : list R) : forall p x,
  In x (p :: rest) -> Math_min p rest <= x.
Proof.
  unfold Math_min. cbn [Math_min2 R_JSNumber].
  induction rest as [| a rest IH]; intros p x Hin.
  - destruct Hin as [<- | []]. cbn. lra.
  - cbn [fold_left]. destruct Hin as [<- | [<- | Hin]].
    + pose proof (fold_Rmin_le_acc rest (Rmin p a)). pose proof (Rmin_l p a). lra.
    + pose proof (fold_Rmin_le_acc rest (Rmin p a)). pose proof (Rmin_r p a). lra.
    + apply IH. now right.
Qed.

Lemma Math_max_upper (rest : list R) : forall p x,
  In x (p :: rest) -> x <= Math_max p rest.
Proof.
  unfold Math_max. cbn [Math_max2 R_JSNumber].
  induction rest as [| a rest IH]; intros p x Hin.
  - destruct Hin as [<- | []]. cbn. lra.
  - cbn [fold_left]. destruct Hin as [<- | [<- | Hin]].
    + pose proof (fold_Rmax_ge_acc rest (Rmax p a)). pose proof (Rmax_l p a). lra.
    + pose proof (fold_Rmax_ge_acc rest (Rmax p a)). pose proof (Rmax_r p a). lra.
    + apply IH. now right.
Qed.

(** The minimum and the maximum are elements of the array. *)
Lemma Math_min_In (rest : list R) : forall p, In (Math_min p rest) (p :: rest).
Proof.
  unfold Math_min. cbn [Math_min2 R_JSNumber].
  induction rest as [| a rest IH]; intros p; cbn [fold_left]; [now left |].
  destruct (IH (Rmin p a)) as [Heq | Hin].
  - rewrite <- Heq. unfold Rmin. destruct (Rle_dec p a); [now left | right; now left].
  - right. now right.
Qed.

Lemma Math_max_In (rest : list R) : forall p, In (Math_max p rest) (p :: rest).
Proof.
  unfold Math_max. cbn [Math_max2 R_JSNumber].
  induction rest as [| a rest IH]; intros p; cbn [fold_left]; [now left |].
  destruct (IH (Rmax p a)) as [Heq | Hin].
  - rewrite <- Heq. unfold Rmax. destruct (Rle_dec p a); [right; now left | now left].
  - right. now right.
Qed.

Lemma normalizeSeries_constant (P : list R) :
  (forall x y, In x P -> In y P -> x = y) ->
  normalizeSeries P = map (fun _ => 50) P.
Proof.
  destruct P as [| p0 rest]; [reflexivity |]. intros Hconst.
  unfold normalizeSeries.
  assert (Hmin : Math_min p0 rest = p0).
  { apply Hconst; [apply Math_min_In | now left]. }
  assert (Hmax : Math_max p0 rest = p0).
  { apply Hconst; [apply Math_max_In | now left]. }
  rewrite Hmin, Hmax. cbn [sub ofZ R_JSNumber].
  rewrite (proj2 (R_eqb_true (p0 - p0) 0)) by lra. reflexivity.
Qed.

Lemma normalizeSeries_bounds (P : list R) (v : R) :
  In v (normalizeSeries P) -> 0 <= v <= 100.
Proof.
  destruct P as [| p0 rest]; [intros [] |].
  unfold normalizeSeries.
  set (lo := Math_min p0 rest). set (hi := Math_max p0 rest).
  cbn [sub mul div ofZ R_JSNumber].
  destruct (eqb (hi - lo) 0) eqn:Hrange.
  - intros Hin. apply in_map_iff in Hin. destruct Hin as (_ & <- & _). lra.
  - apply R_eqb_false in Hrange.
    intros Hin. apply in_map_iff in Hin. destruct Hin as (p & <- & Hp).
    pose proof (Math_min_lower rest p0 p Hp) as Hlo. fold lo in Hlo.
    pose proof (Math_max_upper rest p0 p Hp) as Hhi. fold hi in Hhi.
    assert (Hpos : 0 < hi - lo) by lra.
    assert (Hq : 0 <= (p - lo) / (hi - lo) <= 1).
    { split.
      - apply Rmult_le_pos; [lra |]. left. now apply Rinv_0_lt_compat.
      - apply (Rmult_le_reg_r (hi - lo)); [exact Hpos |].
        unfold Rdiv. rewrite Rmult_assoc, Rinv_l by lra. lra. }
    lra.
Qed.

End NormalizeExact.

(** *** Normalization on doubles, for prices of the data model *)

Section NormalizeDoubles.

(** The prices of the data model: the integers 0..100. *)
Definition cents : list Z := map Z.of_nat (seq 0 101).

Lemma In_cents (z : Z) : (0 <= z <= 100)%Z <-> In z cents.
Proof.
  unfold cents. rewrite in_map_iff. split.
  - intros Hz. exists (Z.to_nat z). split; [lia |]. apply in_seq. lia.
  - intros (n & <- & Hn). apply in_seq in Hn. lia.
Qed.

(** The prices with their doubles. *)
Definition cents_table : list (Z * PrimFloat.float) :=
  map (fun z => (z, F64.ofZ z)) cents.

Lemma In_cents_table (z : Z) :
  (0 <= z <= 100)%Z -> In (z, F64.ofZ z) cents_table.
Proof.
  intros Hz. unfold cents_table.
  apply (in_map (fun z => (z, F64.ofZ z))). now apply In_cents.
Qed.

(** Checked on all pairs: a price is not NaN and the order of two prices as
    doubles is their order as integers. *)
Lemma cents_order (x y : Z) :
  (0 <= x <= 100)%Z -> (0 <= y <= 100)%Z ->
  PrimFloat.is_nan (F64.ofZ x) = false
  /\ PrimFloat.ltb (F64.ofZ x) (F64.ofZ y) = (x <? y)%Z.
Proof.
  intros Hx Hy.
  assert (Hall :
    (let t := cents_table in
     forallb (fun x =>
       forallb (fun y =>
         negb (PrimFloat.is_nan (snd x))
         && Bool.eqb (PrimFloat.ltb (snd x) (snd y)) (fst x <? fst y)%Z)
         t) t) = true) by (vm_compute; reflexivity).
  cbv zeta in Hall.
  rewrite forallb_forall in Hall.
  specialize (Hall _ (In_cents_table x Hx)).
  rewrite forallb_forall in Hall.
  specialize (Hall _ (In_cents_table y Hy)).
  cbn [fst snd] in Hall.
  apply andb_true_iff in Hall. destruct Hall as (Hnan & Hlt).
  split; [now apply negb_true_iff | now apply Bool.eqb_prop].
Qed.

Lemma min2_cents (x y : Z) :
  (0 <= x <= 100)%Z -> (0 <= y <= 100)%Z ->
  F64.min2 (F64.ofZ x) (F64.ofZ y) = F64.ofZ (Z.min x y).
Proof.
  intros Hx Hy. unfold F64.min2.
  destruct (cents_order x y Hx Hy) as (-> & ->).
  destruct (cents_order y x Hy Hx) as (-> & ->).
  destruct (Z.ltb_spec x y); [now rewrite Z.min_l by lia |].
  destruct (Z.ltb_spec y x); [now rewrite Z.min_r by lia |].
  assert (x = y) by lia. subst y. rewrite Z.min_id. now destruct (PrimFloat.get_sign _).
Qed.

Lemma max2_cents (x y : Z) :
  (0 <= x <= 100)%Z -> (0 <= y <= 100)%Z ->
  F64.max2 (F64.ofZ x) (F64.ofZ y) = F64.ofZ (Z.max x y).
Proof.
  intros Hx Hy. unfold F64.max2.
  destruct (cents_order x y Hx Hy) as (-> & ->).
  destruct (cents_order y x Hy Hx) as (-> & ->).
  destruct (Z.ltb_spec x y); [now rewrite Z.max_r by lia |].
  destruct (Z.ltb_spec y x); [now rewrite Z.max_l by lia |].
  assert (x = y) by lia. subst y. rewrite Z.max_id. now destruct (PrimFloat.get_sign _).
Qed.

(** The minimum and maximum of a list of prices, as the integers they are. *)
Lemma Math_min_cents (zs : list Z) : forall z0 : Z,
  (forall z, In z (z0 :: zs) -> (0 <= z <= 100)%Z) ->
  Math_min (F64.ofZ z0) (map F64.ofZ zs) = F64.ofZ (fold_left Z.min zs z0)
  /\ (0 <= fold_left Z.min zs z0 <= 100)%Z
  /\ (forall z, In z (z0 :: zs) -> (fold_left Z.min zs z0 <= z)%Z).
Proof.
  unfold Math_min. cbn [Math_min2 float_JSNumber].
  induction zs as [| y zs IH]; intros z0 Hall; cbn [map fold_left].
  - split; [reflexivity |]. split; [apply Hall; now left |].
    intros z [<- | []]. lia.
  - assert (Hz0 : (0 <= z0 <= 100)%Z) by (apply Hall; now left).
    assert (Hy : (0 <= y <= 100)%Z) by (apply Hall; right; now left).
    rewrite min2_cents by assumption.
    destruct (IH (Z.min z0 y)) as (Heq & Hrange & Hle).
    { intros z [<- | Hin]; [lia | apply Hall; right; now right]. }
    split; [exact Heq |]. split; [exact Hrange |].
    intros z [<- | [<- | Hin]].
    + specialize (Hle (Z.min z0 y) (or_introl eq_refl)). lia.
    + specialize (Hle (Z.min z0 y) (or_introl eq_refl)). lia.
    + apply Hle. now right.
Qed.

Lemma Math_max_cents (zs : list Z) : forall z0 : Z,
  (forall z, In z (z0 :: zs) -> (0 <= z <= 100)%Z) ->
  Math_max (F64.ofZ z0) (map F64.ofZ zs) = F64.ofZ (fold_left Z.max zs z0)
  /\ (0 <= fold_left Z.max zs z0 <= 100)%Z
  /\ (forall z, In z (z0 :: zs) -> (z <= fold_left Z.max zs z0)%Z).
Proof.
  unfold Math_max. cbn [Math_max2 float_JSNumber].
  induction zs as [| y zs IH]; intros z0 Hall; cbn [map fold_left].
  - split; [reflexivity |]. split; [apply Hall; now left |].
    intros z [<- | []]. lia.
  - assert (Hz0 : (0 <= z0 <= 100)%Z) by (apply Hall; now left).
    assert (Hy : (0 <= y <= 100)%Z) by (apply Hall; right; now left).
    rewrite max2_cents by assumption.
    destruct (IH (Z.max z0 y)) as (Heq & Hrange & Hle).
    { intros z [<- | Hin]; [lia | apply Hall; right; now right]. }
    split; [exact Heq |]. split; [exact Hrange |].
    intros z [<- | [<- | Hin]].
    + specialize (Hle (Z.max z0 y) (or_introl eq_refl)). lia.
    + specialize (Hle (Z.max z0 y) (or_introl eq_refl)). lia.
    + apply Hle. now right.
Qed.

(** What normalizeSeries computes for a price [p] of a series with minimum
    [lo] and maximum [hi]. *)
Definition normalized (lo hi p : PrimFloat.float) : PrimFloat.float :=
  if eqb (sub hi lo) (ofZ 0) then ofZ 50
  else mul (div (sub p lo) (sub hi lo)) (ofZ 100).

(** Checked on all triples lo <= z <= hi of prices. *)
Lemma normalized_cent_bounds (lo hi z : Z) :
  (0 <= lo)%Z -> (lo <= z <= hi)%Z -> (hi <= 100)%Z ->
  PrimFloat.leb 0 (normalized (F64.ofZ lo) (F64.ofZ hi) (F64.ofZ z)) = true
  /\ PrimFloat.leb (normalized (F64.ofZ lo) (F64.ofZ hi) (F64.ofZ z)) 100 = true.
Proof.
  intros Hlo Hz Hhi.
  assert (Hall :
    (let t := cents_table in
     forallb (fun lo =>
       forallb (fun hi =>
         forallb (fun z =>
           if (fst lo <=? fst z)%Z && (fst z <=? fst hi)%Z
           then PrimFloat.leb 0 (normalized (snd lo) (snd hi) (snd z))
                && PrimFloat.leb (normalized (snd lo) (snd hi) (snd z)) 100
           else true)
           t) t) t) = true) by (vm_compute; reflexivity).
  cbv zeta in Hall.
  rewrite forallb_forall in Hall.
  specialize (Hall _ (In_cents_table lo ltac:(lia))).
  rewrite forallb_forall in Hall.
  specialize (Hall _ (In_cents_table hi ltac:(lia))).
  rewrite forallb_forall in Hall.
  specialize (Hall _ (In_cents_table z ltac:(lia))).
  cbn [fst snd] in Hall.
  rewrite (proj2 (Z.leb_le lo z)), (proj2 (Z.leb_le z hi)) in Hall by lia.
  now apply andb_true_iff.
Qed.

Lemma normalizeSeries_cents (zs : list Z) (v : PrimFloat.float) :
  (forall z, In z zs -> (0 <= z <= 100)%Z) ->
  In v (normalizeSeries (map F64.ofZ zs)) ->
  PrimFloat.leb 0 v = true /\ PrimFloat.leb v 100 = true.
Proof.
  destruct zs as [| z0 zs]; [intros _ [] |]. intros Hall.
  cbn [map]. unfold normalizeSeries.
  destruct (Math_min_cents zs z0 Hall) as (-> & Hlo & Hmin).
  destruct (Math_max_cents zs z0 Hall) as (-> & Hhi & Hmax).
  set (lo := fold_left Z.min zs z0) in *. set (hi := fold_left Z.max zs z0) in *.
  change (F64.ofZ z0 :: map F64.ofZ zs) with (map F64.ofZ (z0 :: zs)).
  intros Hv.
  assert (Hcent : exists z, In z (z0 :: zs)
                            /\ v = normalized (F64.ofZ lo) (F64.ofZ hi) (F64.ofZ z)).
  { unfold normalized. destruct (eqb _ _).
    - apply in_map_iff in Hv. destruct Hv as (x & <- & Hx).
      apply in_map_iff in Hx. destruct Hx as (z & _ & Hz). now exists z.
    - apply in_map_iff in Hv. destruct Hv as (x & <- & Hx).
      apply in_map_iff in Hx. destruct Hx as (z & <- & Hz). now exists z. }
  destruct Hcent as (z & Hz & ->).
  apply normalized_cent_bounds; [lia | | lia].
  split; [now apply Hmin | now apply Hmax].
Qed.

End NormalizeDoubles.

(** C5: every value of normalizeSeries(P) lies in [0, 100]; the output has
    the length of the input and is empty for the empty input; and when all
    values of a non-empty P are equal, every output value is exactly 50.
    On doubles the bounds hold for every series of the data model's prices,
    the integers 0..100. *)
Theorem normalizeSeries_spec :
  (forall P : list R,
      (forall v, In v (normalizeSeries P) -> (0 <= v <= 100)%R)
      /\ List.length (normalizeSeries P) = List.length P
      /\ (P <> [] ->
          (forall x y, In x P -> In y P -> x = y) ->
          normalizeSeries P = repeat 50%R (List.length P)
          /\ (forall v, In v (normalizeSeries P) -> v = 50%R)))
  /\ (forall (zs : list Z) (v : PrimFloat.float),
         (forall z, In z zs -> (0 <= z <= 100)%Z) ->
         In v (normalizeSeries (map F64.ofZ zs)) ->
         PrimFloat.leb 0 v = true /\ PrimFloat.leb v 100 = true)
  /\ normalizeSeries (A := R) [] = []
  /\ normalizeSeries (A := PrimFloat.float) [] = []
  /\ normalizeSeries [42; 42; 42]%float = [50; 50; 50]%float
  /\ normalizeSeries [30; 40; 50; 35]%float = [0; 50; 100; 25]%float.
Proof.
  split; [| split; [exact normalizeSeries_cents | repeat split; vm_compute; reflexivity]].
  intros P. split; [| split].
  - intros v. apply normalizeSeries_bounds.
  - destruct P as [| p0 rest]; [reflexivity |].
    unfold normalizeSeries.
    destruct (eqb _ _); apply length_map.
  - intros _ Hconst. rewrite (normalizeSeries_constant P Hconst).
    split.
    + clear Hconst. induction P as [| p P IH]; [reflexivity |].
      cbn [map List.length repeat]. now rewrite IH.
    + intros v Hin. apply in_map_iff in Hin. now destruct Hin as (_ & <- & _).
Qed.

Lemma normalizeSeries_spec_witness :
  normalizeSeries [42; 42; 42]%R = repeat 50%R 3
  /\ (forall v, In v (normalizeSeries [42; 42; 42]%R) -> v = 50%R).
Proof.
  apply (proj2 (proj2 (proj1 normalizeSeries_spec [42; 42; 42]%R))).
  - discriminate.
  - simpl. intros x y Hx Hy.
    repeat match goal with H : _ \/ _ |- _ => destruct H end;
      subst; try reflexivity; contradiction.
Defined.

(** *** Pearson correlation *)

Section PearsonExact.

Import Statistics.
Local Open Scope R_scope.

Lemma fold_left_Rplus (xs : list R) : forall acc,
  fold_left Rplus xs acc = acc + total xs.
Proof.
  unfold total. induction xs as [| x xs IH]; intros acc; cbn [fold_left fold_right].
  - lra.
  - rewrite IH. lra.
Qed.

Lemma sum_total (xs : list R) : sum xs = total xs.
Proof.
  unfold sum. cbn [add ofZ R_JSNumber]. rewrite fold_left_Rplus. lra.
Qed.

Lemma mean_avg (xs : list R) : mean xs = avg xs.
Proof.
  unfold mean, avg. cbn [div R_JSNumber]. now rewrite sum_total, ofnat_INR.
Qed.




(** The three sums of the loop, from any accumulator. *)
Lemma moments_sums (mA mB : R) (ab : list (R * R)) : forall m : Moments R,
  num (fold_left (moments_step mA mB) ab m)
  = num m + total (map (fun p => (fst p - mA) * (snd p - mB)) ab)
  /\ denomA (fold_left (moments_step mA mB) ab m)
     = denomA m + sq_dev_from mA (map fst ab)
  /\ denomB (fold_left (moments_step mA mB) ab m)
     = denomB m + sq_dev_from mB (map snd ab).
Proof.
  unfold sq_dev_from, total.
  induction ab as [| p ab IH]; intros m; cbn [fold_left map fold_right].
  - repeat split; lra.
  - destruct (IH (moments_step mA mB m p)) as (Hn & HA & HB).
    rewrite Hn, HA, HB. unfold moments_step.
    cbn [num denomA denomB add sub mul R_JSNumber].
    repeat split; lra.
Qed.

Lemma map_fst_combine_eq (a b : list R) :
  List.length a = List.length b -> map fst (combine a b) = a.
Proof.
  revert b. induction a as [| x a IH]; intros [| y b] Hlen; try discriminate;
    cbn [combine map fst]; [reflexivity |].
  f_equal. apply IH. now injection Hlen.
Qed.

Lemma map_snd_combine_eq (a b : list R) :
  List.length a = List.length b -> map snd (combine a b) = b.
Proof.
  revert b. induction a as [| x a IH]; intros [| y b] Hlen; try discriminate;
    cbn [combine map snd]; [reflexivity |].
  f_equal. apply IH. now injection Hlen.
Qed.

Lemma moments_denoms (mA mB : R) (a b : list R) :
  List.length a = List.length b ->
  denomA (moments mA mB (combine a b)) = sq_dev_from mA a
  /\ denomB (moments mA mB (combine a b)) = sq_dev_from mB b.
Proof.
  intros Hlen. unfold moments.
  destruct (moments_sums mA mB (combine a b)
              {| num := ofZ 0; denomA := ofZ 0; denomB := ofZ 0 |})
    as (_ & HA & HB).
  rewrite HA, HB.
  rewrite map_fst_combine_eq, map_snd_combine_eq by assumption.
  cbn [denomA denomB ofZ R_JSNumber]. split; lra.
Qed.


Lemma pearson_short {A : Type} `{JSNumber A} (a b : list A) :
  (Nat.min (List.length a) (List.length b) < 10)%nat ->
  pearsonCorrelation a b = None.
Proof.
  intros Hlt. unfold pearsonCorrelation.
  destruct (Nat.ltb_spec (Nat.min (List.length a) (List.length b)) 10);
    [reflexivity | lia].
Qed.




End PearsonExact.






(** On doubles the product [denomA * denomB] can underflow: a series whose
    values differ by 1e-100 has a variance too small for it, the denominator
    is 0 and the correlation with itself comes out as 0.  The exact instance
    leaves this out. *)
Remark pearson_self_underflow_on_doubles :
  pearsonCorrelation [0; 0; 0; 0; 0; 0; 0; 0; 0; 1e-100]%float
                     [0; 0; 0; 0; 0; 0; 0; 0; 0; 1e-100]%float
  = Some 0%float.
Proof. vm_compute. reflexivity. Qed.

(** *** Relatedness *)

Section RelatednessExact.

Import RelatednessSpec.
Local Open Scope R_scope.

Lemma keywordSimilarity_nonneg (kwA kwB : list string) :
  0 <= keywordSimilarity (A := R) kwA kwB.
Proof.
  unfold keywordSimilarity.
  destruct (_ || _)%bool; [cbn; lra |]. cbv zeta.
  destruct (Nat.eqb_spec (List.length (Keywords.Set_of [] (kwA ++ kwB))) 0) as [| Hne];
    [cbn; lra |].
  cbn [div R_JSNumber]. rewrite !ofnat_INR.
  apply Rmult_le_pos; [apply pos_INR |].
  left. apply Rinv_0_lt_compat. apply lt_0_INR. lia.
Qed.

Lemma topic_term_nonneg (target candidate : Market R) : 0 <= topic_term target candidate.
Proof.
  unfold topic_term. cbv zeta. destruct (Rlt_dec _ _); lra.
Qed.

Lemma price_term_nonneg (target candidate : Market R) :
  prices_within_100 target candidate -> 0 <= price_term target candidate.
Proof.
  unfold prices_within_100, price_term. intros Hclose.
  destruct (last_price target) as [pt |]; [| lra].
  destruct (last_price candidate) as [pc |]; [| lra].
  specialize (Hclose pt pc eq_refl eq_refl). lra.
Qed.

Lemma prices_in_range_within_100 (target candidate : Market R) :
  price_in_range target -> price_in_range candidate ->
  prices_within_100 target candidate.
Proof.
  intros Ht Hc pt pc Hpt Hpc.
  destruct (Ht pt Hpt) as (zt & -> & Hzt). destruct (Hc pc Hpc) as (zc & -> & Hzc).
  assert (0 <= IZR zt <= 100) by (split; apply IZR_le; lia).
  assert (0 <= IZR zc <= 100) by (split; apply IZR_le; lia).
  apply Rabs_le. lra.
Qed.

(** The score is the sum of the three terms, and the reason is the event's
    whenever the event term fired. *)
Lemma computeRelatedness_exact (target candidate : Market R) :
  score (computeRelatedness target candidate)
  = event_term target candidate + topic_term target candidate
    + price_term target candidate
  /\ (same_nonempty (event_ticker target) (event_ticker candidate) = true ->
      reason (computeRelatedness target candidate) = "SAME EVENT"%string).
Proof.
  unfold computeRelatedness, event_term, topic_term, price_term. cbv zeta.
  fold (titleSimilarity target candidate).
  set (kwSim := titleSimilarity target candidate).
  cbn [ofZ add sub mul div ltb Math_abs R_JSNumber]. unfold Exact.ltb.
  destruct (same_nonempty _ _); destruct (Rlt_dec 0 kwSim);
    destruct (last_price target); destruct (last_price candidate);
    cbn [score reason String.length Nat.eqb]; split; try lra; try reflexivity;
    intros; try discriminate.
Qed.

End RelatednessExact.

Section SameEvent.

Import RelatednessSpec.
Local Open Scope R_scope.



Lemma near_price_in_range :
  price_in_range near_target /\ price_in_range near_candidate.
Proof.
  split; intros p [= <-]; [exists 30%Z | exists 90%Z]; split; try reflexivity; lia.
Qed.

End SameEvent.




(** C7: for every pair of market records whose last_price fields, when
    present, are integers of 0..100, the score of computeRelatedness is at
    least 0. *)
Theorem score_nonneg (target candidate : Market R) :
  RelatednessSpec.price_in_range target ->
  RelatednessSpec.price_in_range candidate ->
  (0 <= score (computeRelatedness target candidate))%R.
Proof.
  intros Hrt Hrc.
  destruct (computeRelatedness_exact target candidate) as (-> & _).
  pose proof (topic_term_nonneg target candidate) as Htopic.
  pose proof (price_term_nonneg _ _ (prices_in_range_within_100 _ _ Hrt Hrc)) as Hprice.
  assert (Hevent : (0 <= RelatednessSpec.event_term target candidate)%R).
  { unfold RelatednessSpec.event_term. destruct (same_nonempty _ _); lra. }
  lra.
Qed.

Lemma score_nonneg_witness :
  (0 <= score (computeRelatedness RelatednessSpec.near_target
                                  RelatednessSpec.near_candidate))%R.
Proof.
  apply score_nonneg; apply near_price_in_range.
Defined.


(** ** Further properties of the analytics *)

(** *** Pearson correlation: range, symmetry, linear series *)

Section PearsonFurther.

Import Statistics.
Local Open Scope R_scope.

(** The sum of the products of the deviations of paired values. *)
Definition co_dev (mA mB : R) (ab : list (R * R)) : R :=
  total (map (fun p => (fst p - mA) * (snd p - mB)) ab).



(** What the correlator computes on two series of the same length [n >= 10]:
    the three sums, about the two means. *)
Lemma pearson_unfold (a b : list R) :
  let n := Nat.min (List.length a) (List.length b) in
  (10 <= n)%nat ->
  let a' := firstn n a in
  let b' := firstn n b in
  let SA := sq_dev_from (avg a') a' in
  let SB := sq_dev_from (avg b') b' in
  let B := co_dev (avg a') (avg b') (combine a' b') in
  List.length a' = n /\ List.length b' = n
  /\ pearsonCorrelation a b
     = if Req_dec_T (sqrt (SA * SB)) 0 then Some 0 else Some (B / sqrt (SA * SB)).
Proof.
  intros n Hn a' b' SA SB B.
  assert (Hla : List.length a' = n) by (apply firstn_length_le; lia).
  assert (Hlb : List.length b' = n) by (apply firstn_length_le; lia).
  split; [exact Hla |]. split; [exact Hlb |].
  unfold pearsonCorrelation. cbv zeta. fold n.
  destruct (Nat.ltb_spec n 10) as [Hlt | _]; [lia |]. fold a' b'.
  assert (HmA : div (sum a') (ofnat n) = avg a').
  { rewrite <- mean_avg. unfold mean. now rewrite Hla. }
  assert (HmB : div (sum b') (ofnat n) = avg b').
  { rewrite <- mean_avg. unfold mean. now rewrite Hlb. }
  rewrite HmA, HmB.
  destruct (moments_denoms (avg a') (avg b') a' b') as (HA & HB); [congruence |].
  rewrite HA, HB. fold SA SB.
  unfold moments.
  destruct (moments_sums (avg a') (avg b') (combine a' b')
              {| num := ofZ 0; denomA := ofZ 0; denomB := ofZ 0 |}) as (HN & _ & _).
  rewrite HN. cbn [num ofZ mul div eqb Math_sqrt R_JSNumber]. unfold Exact.eqb.
  fold (co_dev (avg a') (avg b') (combine a' b')). fold B.
  destruct (Req_dec_T (sqrt (SA * SB)) 0); [reflexivity |].
  f_equal. lra.
Qed.

Lemma co_dev_swap (mA mB : R) (a b : list R) :
  co_dev mA mB (combine a b) = co_dev mB mA (combine b a).
Proof.
  unfold co_dev, total. revert b.
  induction a as [| x a IH]; intros [| y b]; cbn [combine map fold_right fst snd];
    try reflexivity.
  rewrite IH. lra.
Qed.

End PearsonFurther.



(** The correlation of two series does not depend on their order. *)
Theorem pearson_symmetric (a b : list R) :
  pearsonCorrelation a b = pearsonCorrelation b a.
Proof.
  destruct (Nat.ltb_spec (Nat.min (List.length a) (List.length b)) 10) as [Hlt | Hge].
  { rewrite (pearson_short a b Hlt). symmetry. apply pearson_short.
    now rewrite Nat.min_comm. }
  destruct (pearson_unfold a b Hge) as (_ & _ & ->).
  assert (Hge' : (10 <= Nat.min (List.length b) (List.length a))%nat)
    by now rewrite Nat.min_comm.
  destruct (pearson_unfold b a Hge') as (_ & _ & ->).
  cbv zeta. rewrite (Nat.min_comm (List.length b) (List.length a)).
  set (n := Nat.min (List.length a) (List.length b)).
  rewrite (co_dev_swap _ _ (firstn n b) (firstn n a)).
  rewrite (Rmult_comm (Statistics.sq_dev_from _ (firstn n b))).
  reflexivity.
Qed.

Section PearsonLinear.

Import Statistics.
Local Open Scope R_scope.

Variables s t : R.






End PearsonLinear.



(** *** Normalization: end points and order *)

(** A series with two different values is rescaled by one increasing linear
    map that sends its minimum to 0 and its maximum to 100: both values
    occur in the output and the order of the prices is kept. *)
Theorem normalizeSeries_endpoints (P : list R) :
  Statistics.non_constant P ->
  exists lo hi : R,
    In lo P /\ In hi P /\ (lo < hi)%R
    /\ (forall p, In p P -> (lo <= p <= hi)%R)
    /\ normalizeSeries P = map (fun p => (p - lo) / (hi - lo) * 100)%R P
    /\ In 0%R (normalizeSeries P)
    /\ In 100%R (normalizeSeries P)
    /\ (forall p q : R, (p <= q)%R ->
          ((p - lo) / (hi - lo) * 100 <= (q - lo) / (hi - lo) * 100)%R).
Proof.
  intros (x & y & Hx & Hy & Hxy).
  destruct P as [| p0 rest]; [destruct Hx |].
  set (lo := Math_min p0 rest). set (hi := Math_max p0 rest).
  assert (Hlo : forall p, In p (p0 :: rest) -> (lo <= p)%R)
    by (intros p Hp; now apply Math_min_lower).
  assert (Hhi : forall p, In p (p0 :: rest) -> (p <= hi)%R)
    by (intros p Hp; now apply Math_max_upper).
  assert (Hlt : (lo < hi)%R).
  { pose proof (Hlo x Hx). pose proof (Hlo y Hy).
    pose proof (Hhi x Hx). pose proof (Hhi y Hy).
    destruct (Rtotal_order x y) as [? | [? | ?]]; [lra | contradiction | lra]. }
  assert (Hnorm : normalizeSeries (p0 :: rest)
                  = map (fun p => (p - lo) / (hi - lo) * 100)%R (p0 :: rest)).
  { unfold normalizeSeries. fold lo hi. cbn [sub mul div ofZ R_JSNumber].
    rewrite (proj2 (R_eqb_false (hi - lo) 0)) by lra. reflexivity. }
  exists lo, hi.
  split; [apply Math_min_In |]. split; [apply Math_max_In |].
  split; [exact Hlt |]. split; [intros p Hp; split; auto |].
  split; [exact Hnorm |]. rewrite Hnorm.
  split; [| split].
  - apply in_map_iff. exists lo. split; [| apply Math_min_In].
    unfold Rdiv. ring.
  - apply in_map_iff. exists hi. split; [| apply Math_max_In].
    field. lra.
  - intros p q Hpq.
    apply Rmult_le_compat_r; [lra |].
    apply Rmult_le_compat_r; [left; apply Rinv_0_lt_compat; lra | lra].
Qed.

Lemma normalizeSeries_endpoints_witness :
  In 0%R (normalizeSeries [30; 40; 50; 35]%R)
  /\ In 100%R (normalizeSeries [30; 40; 50; 35]%R).
Proof.
  destruct (normalizeSeries_endpoints [30; 40; 50; 35]%R)
    as (lo & hi & _ & _ & _ & _ & _ & H0 & H100 & _).
  - exists 30%R, 40%R. simpl. repeat split; [tauto | tauto | lra].
  - split; assumption.
Defined.

(** *** Momentum: the guard and the dead zone *)

Section MomentumDirection.

Local Open Scope R_scope.

(** The mean of the recent half minus the mean of the older half. *)
Definition half_difference (ps : list R) : R :=
  let half := (List.length ps / 2)%nat in
  mean (firstn half ps) - mean (skipn half ps).

Lemma computeMomentum_direction (ts : list (Trade R)) :
  (4 <= List.length ts)%nat ->
  exists r,
    computeMomentum (Some ts) = Some r
    /\ tradeCount r = List.length ts
    /\ velocity r
       = round2 (slope_numerator (map tradePrice ts)
                 / slope_denominator (map tradePrice ts))
    /\ magnitude r = round1 (Rabs (half_difference (map tradePrice ts)))
    /\ direction r
       = (if Rlt_dec 1 (half_difference (map tradePrice ts)) then "UP"
          else if Rlt_dec (half_difference (map tradePrice ts)) (-1) then "DOWN"
          else "FLAT")%string.
Proof.
  intros Hlen. unfold computeMomentum.
  destruct (Nat.ltb_spec (List.length ts) 4) as [Hlt | _]; [lia |].
  eexists. split; [reflexivity |].
  cbn [tradeCount magnitude direction velocity]. split; [reflexivity |].
  split; [reflexivity |].
  unfold half_difference, mean. cbv zeta.
  cbn [sub ltb ofZ Math_abs R_JSNumber]. unfold Exact.ltb.
  set (d := (_ - _)%R). split; [reflexivity |].
  set (d' := (_ - _)%R).
  assert (Hd : d' = (- d)%R) by (unfold d, d'; ring).
  destruct (Rlt_dec 1 d); [reflexivity |].
  destruct (Rlt_dec 1 d'); destruct (Rlt_dec d (-1)); try reflexivity; lra.
Qed.

End MomentumDirection.



(** *** Momentum: a series on a line *)

Section MomentumLinear.

Import Statistics.
Local Open Scope R_scope.

Variables c b : R.

(** The prices [c + b * k] for the indices [k = i, ..., i + n - 1]. *)
Definition linear (i n : nat) : list R := map (fun k => c + b * INR k) (seq i n).

Lemma regression_linear (n : nat) : forall (i : nat) (s : Sums R),
  let r := regression (linear i n) i s in
  sumY r - sumY s = c * INR n + b * (sumX r - sumX s)
  /\ sumXY r - sumXY s = c * (sumX r - sumX s) + b * (sumX2 r - sumX2 s).
Proof.
  unfold linear.
  induction n as [| n IH]; intros i s; cbn [seq map regression].
  - cbn. split; lra.
  - specialize (IH (S i)
      {| sumX := add (sumX s) (ofnat i);
         sumY := add (sumY s) (c + b * INR i);
         sumXY := add (sumXY s) (mul (ofnat i) (c + b * INR i));
         sumX2 := add (sumX2 s) (mul (ofnat i) (ofnat i)) |}).
    cbv zeta in IH. destruct IH as (HY & HXY).
    set (r := regression _ (S i) _) in *.
    cbn [sumX sumY sumXY sumX2 add mul R_JSNumber] in HY, HXY.
    rewrite ofnat_INR in HY, HXY. rewrite S_INR.
    split; lra.
Qed.

Lemma slope_numerator_linear (n : nat) :
  slope_numerator (linear 0 n) = b * slope_denominator (linear 0 n).
Proof.
  unfold slope_numerator, slope_denominator, sums. cbv zeta.
  destruct (regression_linear n 0
              {| sumX := ofZ 0; sumY := ofZ 0; sumXY := ofZ 0; sumX2 := ofZ 0 |})
    as (HY & HXY).
  cbv zeta in HY, HXY. cbn [sumX sumY sumXY sumX2 ofZ R_JSNumber] in HY, HXY.
  set (r := regression (linear 0 n) 0 _) in *.
  assert (Hl : List.length (linear 0 n) = n)
    by (unfold linear; now rewrite length_map, length_seq).
  cbn [add sub mul R_JSNumber]. rewrite Hl, ofnat_INR.
  assert (EY : sumY r = c * INR n + b * sumX r) by lra.
  assert (EXY : sumXY r = c * sumX r + b * sumX2 r) by lra.
  rewrite EY, EXY. ring.
Qed.

Lemma total_linear (n : nat) : forall i : nat,
  2 * total (linear i n) = INR n * (2 * c + b * (2 * INR i + INR n - 1)).
Proof.
  unfold total, linear.
  induction n as [| n IH]; intros i; cbn [seq map fold_right].
  - cbn. lra.
  - specialize (IH (S i)). rewrite !S_INR in *. lra.
Qed.

Lemma mean_linear (i n : nat) :
  (0 < n)%nat -> 2 * mean (linear i n) = 2 * c + b * (2 * INR i + INR n - 1).
Proof.
  intros Hn. rewrite mean_avg. unfold avg.
  assert (Hl : List.length (linear i n) = n)
    by (unfold linear; now rewrite length_map, length_seq).
  rewrite Hl.
  assert (HnR : 0 < INR n) by now apply lt_0_INR.
  pose proof (total_linear n i) as Ht.
  apply (Rmult_eq_reg_l (INR n)); [| lra].
  replace (INR n * (2 * (total (linear i n) / INR n)))
    with (2 * total (linear i n)) by (field; lra).
  lra.
Qed.

Lemma half_difference_linear (n : nat) :
  (2 <= n)%nat -> 2 * half_difference (linear 0 n) = - (b * INR n).
Proof.
  intros Hn. unfold half_difference. cbv zeta.
  assert (Hl : List.length (linear 0 n) = n)
    by (unfold linear; now rewrite length_map, length_seq).
  rewrite Hl.
  set (half := (n / 2)%nat).
  assert (Hhalf : (0 < half <= n)%nat).
  { unfold half. split.
    - apply Nat.div_str_pos. lia.
    - apply Nat.Div0.div_le_upper_bound. lia. }
  assert (Hrest : (0 < n - half)%nat).
  { unfold half. pose proof (Nat.Div0.div_lt_upper_bound n 2 n). lia. }
  assert (Hfirst : firstn half (linear 0 n) = linear 0 half).
  { unfold linear. rewrite firstn_map. f_equal.
    replace n with (half + (n - half))%nat at 1 by lia.
    rewrite seq_app, firstn_app, length_seq, Nat.sub_diag, firstn_O, app_nil_r.
    rewrite <- (length_seq half 0) at 1. apply firstn_all. }
  assert (Hskip : skipn half (linear 0 n) = linear half (n - half)).
  { unfold linear. rewrite skipn_map, skipn_seq. reflexivity. }
  rewrite Hfirst, Hskip.
  pose proof (mean_linear 0 half ltac:(lia)) as Hm1.
  pose proof (mean_linear half (n - half) Hrest) as Hm2.
  rewrite minus_INR in Hm2 by lia. cbn [INR] in Hm1.
  cbn [sub R_JSNumber]. lra.
Qed.

End MomentumLinear.

(** For trades whose prices lie on a line, price = c + b * index, the
    velocity is the slope b rounded to two decimals, the magnitude is
    |b| * n / 2 rounded to one decimal, and the direction is "UP" exactly
    when b * n < -2 and "DOWN" exactly when b * n > 2: with the newest trade
    at index 0, a falling velocity goes with a rising momentum. *)
Theorem computeMomentum_linear (ts : list (Trade R)) (c b : R) :
  (4 <= List.length ts)%nat ->
  map tradePrice ts = linear c b 0 (List.length ts) ->
  exists r,
    computeMomentum (Some ts) = Some r
    /\ velocity r = round2 b
    /\ magnitude r = round1 (Rabs b * INR (List.length ts) / 2)%R
    /\ (direction r = "UP"%string <-> (b * INR (List.length ts) < -2)%R)
    /\ (direction r = "DOWN"%string <-> (2 < b * INR (List.length ts))%R).
Proof.
  intros Hlen Hps.
  destruct (computeMomentum_direction ts Hlen) as (r & Hr & _ & Hvel & Hmag & Hdir).
  exists r. split; [exact Hr |].
  pose proof (half_difference_linear c b (List.length ts) ltac:(lia)) as Hd.
  rewrite <- Hps in Hd.
  set (d := half_difference (map tradePrice ts)) in *.
  set (n := INR (List.length ts)) in *.
  assert (Hn : (4 <= n)%R).
  { pose proof (le_INR _ _ Hlen) as H4. cbn [INR] in H4. unfold n. lra. }
  split; [| split; [| split]].
  - rewrite Hvel. f_equal.
    rewrite Hps, slope_numerator_linear.
    pose proof (slope_denominator_pos (linear c b 0 (List.length ts))) as Hpos.
    assert (Hl : List.length (linear c b 0 (List.length ts)) = List.length ts)
      by (unfold linear; now rewrite length_map, length_seq).
    rewrite Hl in Hpos. specialize (Hpos ltac:(lia)). field. lra.
  - rewrite Hmag. f_equal.
    replace d with (- (b * n) / 2)%R by lra.
    replace (- (b * n) / 2)%R with (- (b * n / 2))%R by lra.
    rewrite Rabs_Ropp. unfold Rdiv. rewrite !Rabs_mult.
    rewrite (Rabs_pos_eq n) by lra. rewrite (Rabs_pos_eq (/ 2)) by lra. reflexivity.
  - rewrite Hdir.
    destruct (Rlt_dec 1 d); [| destruct (Rlt_dec d (-1))];
      split; intros; try discriminate; try reflexivity; try lra.
  - rewrite Hdir.
    destruct (Rlt_dec 1 d); [| destruct (Rlt_dec d (-1))];
      split; intros; try discriminate; try reflexivity; try lra.
Qed.

Lemma computeMomentum_linear_witness :
  exists r,
    computeMomentum
      (Some [ {| yes_price := Some (50 + 2 * 0)%R; price := None |};
              {| yes_price := Some (50 + 2 * 1)%R; price := None |};
              {| yes_price := Some (50 + 2 * (1 + 1))%R; price := None |};
              {| yes_price := Some (50 + 2 * (1 + 1 + 1))%R; price := None |} ])
    = Some r
    /\ velocity r = round2 2%R.
Proof.
  destruct (computeMomentum_linear
              [ {| yes_price := Some (50 + 2 * 0)%R; price := None |};
                {| yes_price := Some (50 + 2 * 1)%R; price := None |};
                {| yes_price := Some (50 + 2 * (1 + 1))%R; price := None |};
                {| yes_price := Some (50 + 2 * (1 + 1 + 1))%R; price := None |} ]
              50 2) as (r & Hr & Hv & _).
  - simpl. lia.
  - reflexivity.
  - exists r. split; assumption.
Defined.

(** *** Divergence: guards, exchange of the two sides, a market against itself *)

Section DivergenceExact.

Local Open Scope R_scope.

(** The mean of the first three prices minus the mean of the last three. *)
Definition delta (prices : list R) : R :=
  Divergence.recent prices - Divergence.older prices.

(** The decision table of the direction, on the two deltas. *)
Definition divergence_label (tDelta cDelta : R) : string :=
  if Rlt_dec 1 tDelta then
    if Rlt_dec cDelta (-1) then "TARGET UP / MATCH DOWN"
    else if Rlt_dec 1 cDelta then
      if Rlt_dec 3 (Rabs (tDelta - cDelta)) then "BOTH UP (DIVERGING)" else "NEUTRAL"
    else "NEUTRAL"
  else if Rlt_dec tDelta (-1) then
    if Rlt_dec 1 cDelta then "TARGET DOWN / MATCH UP"
    else if Rlt_dec cDelta (-1) then
      if Rlt_dec 3 (Rabs (tDelta - cDelta)) then "BOTH DOWN (DIVERGING)" else "NEUTRAL"
    else "NEUTRAL"
  else "NEUTRAL".

Lemma computeDivergence_exact (tTrades cTrades : list (Trade R)) :
  (3 <= List.length tTrades)%nat -> (3 <= List.length cTrades)%nat ->
  let tDelta := delta (map tradePrice tTrades) in
  let cDelta := delta (map tradePrice cTrades) in
  Divergence.computeDivergence (Some tTrades) (Some cTrades)
  = Some {| Divergence.divergence := round1 (Rabs (tDelta - cDelta));
            Divergence.direction := divergence_label tDelta cDelta;
            Divergence.targetDelta := round1 tDelta;
            Divergence.candidateDelta := round1 cDelta |}.
Proof.
  intros Ht Hc tDelta cDelta. unfold Divergence.computeDivergence.
  destruct (Nat.eqb_spec (List.length tTrades) 0) as [? | _]; [lia |].
  destruct (Nat.eqb_spec (List.length cTrades) 0) as [? | _]; [lia |].
  destruct (Nat.ltb_spec (List.length tTrades) 3) as [? | _]; [lia |].
  destruct (Nat.ltb_spec (List.length cTrades) 3) as [? | _]; [lia |].
  cbn [orb]. cbv zeta.
  cbn [sub ltb ofZ Math_abs R_JSNumber]. unfold Exact.ltb, divergence_label.
  change (Divergence.recent (map tradePrice tTrades)
          - Divergence.older (map tradePrice tTrades)) with tDelta.
  change (Divergence.recent (map tradePrice cTrades)
          - Divergence.older (map tradePrice cTrades)) with cDelta.
  destruct (Rlt_dec 1 tDelta); destruct (Rlt_dec cDelta (-1));
    destruct (Rlt_dec tDelta (-1)); destruct (Rlt_dec 1 cDelta);
    destruct (Rlt_dec 3 (Rabs (tDelta - cDelta))); cbn [andb]; try reflexivity; lra.
Qed.

Lemma divergence_label_swap (t c : R) :
  divergence_label c t
  = (let l := divergence_label t c in
     if String.eqb l "TARGET UP / MATCH DOWN" then "TARGET DOWN / MATCH UP"
     else if String.eqb l "TARGET DOWN / MATCH UP" then "TARGET UP / MATCH DOWN"
     else l)%string.
Proof.
  unfold divergence_label. rewrite (Rabs_minus_sym c t).
  destruct (Rlt_dec 1 t); destruct (Rlt_dec c (-1));
    destruct (Rlt_dec t (-1)); destruct (Rlt_dec 1 c);
    destruct (Rlt_dec 3 (Rabs (t - c))); try reflexivity; lra.
Qed.


End DivergenceExact.

(** computeDivergence returns null exactly when a side is absent or has
    fewer than 3 trades, for every number instance.  Exchanging target and
    candidate keeps the divergence, exchanges the two deltas, and exchanges
    the labels "TARGET UP / MATCH DOWN" and "TARGET DOWN / MATCH UP" while
    every other label stays. *)
Theorem computeDivergence_guard_and_exchange :
  (forall (A : Type) (N : JSNumber A) (tTrades cTrades : list (Trade A)),
      Divergence.computeDivergence (A := A) None (Some cTrades) = None
      /\ Divergence.computeDivergence (A := A) (Some tTrades) None = None
      /\ Divergence.computeDivergence (A := A) None None = None
      /\ (Divergence.computeDivergence (Some tTrades) (Some cTrades) = None
          <-> (List.length tTrades < 3 \/ List.length cTrades < 3)%nat))
  /\ (forall (tTrades cTrades : list (Trade R)) (r : Divergence.Result R),
         Divergence.computeDivergence (Some tTrades) (Some cTrades) = Some r ->
         exists r',
           Divergence.computeDivergence (Some cTrades) (Some tTrades) = Some r'
           /\ Divergence.divergence r' = Divergence.divergence r
           /\ Divergence.targetDelta r' = Divergence.candidateDelta r
           /\ Divergence.candidateDelta r' = Divergence.targetDelta r
           /\ Divergence.direction r'
              = (if String.eqb (Divergence.direction r) "TARGET UP / MATCH DOWN"
                 then "TARGET DOWN / MATCH UP"
                 else if String.eqb (Divergence.direction r) "TARGET DOWN / MATCH UP"
                 then "TARGET UP / MATCH DOWN"
                 else Divergence.direction r)%string).
Proof.
  split.
  - intros A N tTrades cTrades. repeat split.
    + unfold Divergence.computeDivergence.
      destruct (Nat.eqb_spec (List.length tTrades) 0);
        destruct (Nat.eqb_spec (List.length cTrades) 0);
        destruct (Nat.ltb_spec (List.length tTrades) 3);
        destruct (Nat.ltb_spec (List.length cTrades) 3);
        cbn [orb]; intros; try discriminate; lia.
    + unfold Divergence.computeDivergence.
      destruct (Nat.eqb_spec (List.length tTrades) 0);
        destruct (Nat.eqb_spec (List.length cTrades) 0);
        destruct (Nat.ltb_spec (List.length tTrades) 3);
        destruct (Nat.ltb_spec (List.length cTrades) 3);
        cbn [orb]; intros; try reflexivity; lia.
  - intros tTrades cTrades r Hr.
    assert (Hlen : (3 <= List.length tTrades)%nat /\ (3 <= List.length cTrades)%nat).
    { unfold Divergence.computeDivergence in Hr.
      destruct (Nat.eqb_spec (List.length tTrades) 0);
        destruct (Nat.eqb_spec (List.length cTrades) 0);
        destruct (Nat.ltb_spec (List.length tTrades) 3);
        destruct (Nat.ltb_spec (List.length cTrades) 3);
        cbn [orb] in Hr; try discriminate; lia. }
    destruct Hlen as (Ht & Hc).
    rewrite (computeDivergence_exact tTrades cTrades Ht Hc) in Hr.
    injection Hr as <-.
    rewrite (computeDivergence_exact cTrades tTrades Hc Ht).
    eexists. split; [reflexivity |].
    cbn [Divergence.divergence Divergence.targetDelta Divergence.candidateDelta
         Divergence.direction].
    split; [now rewrite Rabs_minus_sym |]. split; [reflexivity |].
    split; [reflexivity |]. apply divergence_label_swap.
Qed.

Lemma computeDivergence_guard_and_exchange_witness :
  Divergence.computeDivergence
    (Some [ {| yes_price := Some 70%R; price := None |};
            {| yes_price := Some 68%R; price := None |} ])
    (Some [ {| yes_price := Some 70%R; price := None |};
            {| yes_price := Some 68%R; price := None |};
            {| yes_price := Some 65%R; price := None |} ])
  = None.
Proof.
  apply (proj1 computeDivergence_guard_and_exchange R R_JSNumber).
  left. simpl. lia.
Defined.



(** *** Spread: what is reported when a side is empty, and the algebra *)



(** *** Arbitrage: markets without a price, and the order of the markets *)

Lemma filter_idempotent {X : Type} (f : X -> bool) (l : list X) :
  filter f (filter f l) = filter f l.
Proof.
  induction l as [| x l IH]; [reflexivity |]. cbn [filter].
  destruct (f x) eqn:Hfx; [| exact IH]. cbn [filter]. now rewrite Hfx, IH.
Qed.

Lemma sum_prices_Permutation (ms ms' : list (Market R)) :
  Permutation ms ms' -> ArbitrageSpec.sum_prices ms = ArbitrageSpec.sum_prices ms'.
Proof.
  unfold ArbitrageSpec.sum_prices.
  induction 1; cbn [map fold_right]; lra.
Qed.

Lemma filter_Permutation {X : Type} (f : X -> bool) (l l' : list X) :
  Permutation l l' -> Permutation (filter f l) (filter f l').
Proof.
  induction 1 as [| x l l' _ IH | x y l | l l' l'' _ IH1 _ IH2]; cbn [filter].
  - constructor.
  - destruct (f x); [now constructor | exact IH].
  - destruct (f x); destruct (f y); try apply Permutation_refl. constructor.
  - now transitivity (filter f l').
Qed.

(** The markets without a known positive price play no part: the result for
    an event is the result for its priced markets alone, for every number
    instance, and a result counts at least 2 and at most all markets. *)
Theorem detectArbitrage_priced_only :
  forall (A : Type) (N : JSNumber A) (ms : list (Market A)),
    detectArbitrage (Some ms) = detectArbitrage (Some (filter hasPrice ms))
    /\ (forall r, detectArbitrage (Some ms) = Some r ->
                  (2 <= marketCount r <= List.length ms)%nat
                  /\ marketCount r = List.length (filter hasPrice ms)).
Proof.
  intros A N ms.
  pose proof (filter_length_le hasPrice ms) as Hle.
  split.
  - unfold detectArbitrage. rewrite filter_idempotent.
    destruct (Nat.ltb_spec (List.length ms) 2) as [Hms | Hms];
      destruct (Nat.ltb_spec (List.length (filter hasPrice ms)) 2) as [Hf | Hf];
      try reflexivity; lia.
  - intros r Hr. unfold detectArbitrage in Hr.
    destruct (Nat.ltb_spec (List.length ms) 2) as [Hms | Hms]; [discriminate |].
    destruct (Nat.ltb_spec (List.length (filter hasPrice ms)) 2) as [Hf | Hf];
      [discriminate |].
    injection Hr as <-. cbn [marketCount]. lia.
Qed.

(** The result for an event does not depend on the order of its markets. *)
Theorem detectArbitrage_Permutation (ms ms' : list (Market R)) :
  Permutation ms ms' ->
  detectArbitrage (Some ms) = detectArbitrage (Some ms').
Proof.
  intros Hperm. rewrite !detectArbitrage_exact. cbv zeta.
  pose proof (filter_Permutation hasPrice ms ms' Hperm) as Hf.
  rewrite (Permutation_length Hf), (sum_prices_Permutation _ _ Hf).
  reflexivity.
Qed.

Lemma detectArbitrage_Permutation_witness :
  detectArbitrage (Some ArbitrageExample.markets)
  = detectArbitrage (Some (rev ArbitrageExample.markets)).
Proof.
  apply detectArbitrage_Permutation. apply Permutation_rev.
Defined.

Lemma detectArbitrage_priced_only_witness :
  exists r,
    detectArbitrage (Some (ArbitrageSpec.float_markets [70; 0; 50]%Z)) = Some r
    /\ marketCount r = 2%nat.
Proof.
  eexists. split; [vm_compute; reflexivity |].
  apply (proj2 (detectArbitrage_priced_only PrimFloat.float float_JSNumber
                  (ArbitrageSpec.float_markets [70; 0; 50]%Z))).
  vm_compute. reflexivity.
Defined.

(** *** Keywords as sets *)

Section KeywordSets.

Lemma has_In (ws : list string) (w : string) : Keywords.has ws w = true <-> In w ws.
Proof.
  unfold Keywords.has. rewrite existsb_exists. split.
  - intros (x & Hx & Heq). apply String.eqb_eq in Heq. now subst.
  - intros Hin. exists w. split; [exact Hin | apply String.eqb_refl].
Qed.

Lemma Set_of_In (ws : list string) : forall (seen : list string) (w : string),
  In w (Keywords.Set_of seen ws) <-> In w ws /\ ~ In w seen.
Proof.
  induction ws as [| x ws IH]; intros seen w; cbn [Keywords.Set_of].
  - cbn. tauto.
  - destruct (Keywords.has seen x) eqn:Hx.
    + apply has_In in Hx. rewrite IH. cbn [In]. split.
      * intros (Hin & Hns). tauto.
      * intros ([-> | Hin] & Hns); [contradiction | tauto].
    + assert (Hnx : ~ In x seen).
      { intros Hin. apply has_In in Hin. congruence. }
      cbn [In]. rewrite IH. cbn [In]. split.
      * intros [-> | (Hin & Hns)]; [tauto |]. split; [tauto |]. tauto.
      * intros ([-> | Hin] & Hns); [now left |].
        destruct (string_dec x w) as [-> | Hne]; [now left |].
        right. split; [exact Hin |]. intros [Heq | Hs]; [contradiction | contradiction].
Qed.

Lemma Set_of_NoDup (ws : list string) : forall seen : list string,
  NoDup (Keywords.Set_of seen ws).
Proof.
  induction ws as [| x ws IH]; intros seen; cbn [Keywords.Set_of]; [constructor |].
  destruct (Keywords.has seen x); [apply IH |].
  constructor; [| apply IH].
  rewrite Set_of_In. cbn [In]. tauto.
Qed.

(** The number of keywords in both lists, and in either. *)
Definition common (kwA kwB : list string) : nat :=
  List.length (filter (Keywords.has (Keywords.Set_of [] kwB)) (Keywords.Set_of [] kwA)).

Definition either (kwA kwB : list string) : nat :=
  List.length (Keywords.Set_of [] (kwA ++ kwB)).

Lemma common_In (kwA kwB : list string) (w : string) :
  In w (filter (Keywords.has (Keywords.Set_of [] kwB)) (Keywords.Set_of [] kwA))
  <-> In w kwA /\ In w kwB.
Proof.
  rewrite filter_In, has_In, !Set_of_In. cbn [In]. tauto.
Qed.

Lemma common_NoDup (kwA kwB : list string) :
  NoDup (filter (Keywords.has (Keywords.Set_of [] kwB)) (Keywords.Set_of [] kwA)).
Proof. apply NoDup_filter, Set_of_NoDup. Qed.

Lemma either_In (kwA kwB : list string) (w : string) :
  In w (Keywords.Set_of [] (kwA ++ kwB)) <-> In w kwA \/ In w kwB.
Proof.
  rewrite Set_of_In, in_app_iff. cbn [In]. tauto.
Qed.

Lemma counts_of_sets (kwA kwA' kwB kwB' : list string) :
  (forall w, In w kwA <-> In w kwA') ->
  (forall w, In w kwB <-> In w kwB') ->
  common kwA kwB = common kwA' kwB' /\ either kwA kwB = either kwA' kwB'.
Proof.
  intros HA HB. unfold common, either. split; apply Permutation_length.
  - apply NoDup_Permutation; try apply common_NoDup.
    intros w. rewrite !common_In, HA, HB. reflexivity.
  - apply NoDup_Permutation; try apply Set_of_NoDup.
    intros w. rewrite !either_In, HA, HB. reflexivity.
Qed.

Lemma counts_swap (kwA kwB : list string) :
  common kwA kwB = common kwB kwA /\ either kwA kwB = either kwB kwA.
Proof.
  unfold common, either. split; apply Permutation_length.
  - apply NoDup_Permutation; try apply common_NoDup.
    intros w. rewrite !common_In. tauto.
  - apply NoDup_Permutation; try apply Set_of_NoDup.
    intros w. rewrite !either_In. tauto.
Qed.

Lemma common_le_either (kwA kwB : list string) : (common kwA kwB <= either kwA kwB)%nat.
Proof.
  unfold common, either. apply NoDup_incl_length; [apply common_NoDup |].
  intros w Hw. apply common_In in Hw. apply either_In. tauto.
Qed.

Lemma common_self (kwA : list string) : common kwA kwA = either kwA kwA.
Proof.
  unfold common, either. apply Permutation_length.
  apply NoDup_Permutation; [apply common_NoDup | apply Set_of_NoDup |].
  intros w. rewrite common_In, either_In. tauto.
Qed.

Lemma either_pos (kwA kwB : list string) : kwA <> [] -> (0 < either kwA kwB)%nat.
Proof.
  intros Hne. destruct kwA as [| w kwA]; [contradiction |].
  unfold either.
  destruct (Keywords.Set_of [] ((w :: kwA) ++ kwB)) eqn:Hset; [| cbn; lia].
  assert (Hin : In w (Keywords.Set_of [] ((w :: kwA) ++ kwB)))
    by (apply either_In; left; now left).
  rewrite Hset in Hin. destruct Hin.
Qed.

Lemma keywordSimilarity_counts {A : Type} `{JSNumber A} (kwA kwB : list string) :
  keywordSimilarity kwA kwB
  = if (List.length kwA =? 0)%nat || (List.length kwB =? 0)%nat then ofZ 0
    else if (either kwA kwB =? 0)%nat then ofZ 0
    else div (ofnat (common kwA kwB)) (ofnat (either kwA kwB)).
Proof. reflexivity. Qed.

Lemma keywordSimilarity_swap {A : Type} `{JSNumber A} (kwA kwB : list string) :
  keywordSimilarity kwA kwB = keywordSimilarity kwB kwA.
Proof.
  rewrite !keywordSimilarity_counts.
  destruct (counts_swap kwA kwB) as (-> & ->).
  now rewrite orb_comm.
Qed.

Lemma keywordSimilarity_range (kwA kwB : list string) :
  (0 <= keywordSimilarity kwA kwB <= 1)%R.
Proof.
  rewrite keywordSimilarity_counts.
  destruct (_ || _)%bool; [cbn; lra |].
  destruct (Nat.eqb_spec (either kwA kwB) 0) as [| Hne]; [cbn; lra |].
  cbn [div R_JSNumber]. rewrite !ofnat_INR.
  assert (Hpos : (0 < INR (either kwA kwB))%R) by (apply lt_0_INR; lia).
  pose proof (le_INR _ _ (common_le_either kwA kwB)) as Hle.
  pose proof (pos_INR (common kwA kwB)) as Hc.
  split.
  - apply Rmult_le_pos; [exact Hc |]. left. now apply Rinv_0_lt_compat.
  - apply (Rmult_le_reg_r (INR (either kwA kwB))); [exact Hpos |].
    unfold Rdiv. rewrite Rmult_assoc, Rinv_l by lra. lra.
Qed.

Lemma length_zero_of_set (kw kw' : list string) :
  (forall w, In w kw <-> In w kw') ->
  (List.length kw =? 0)%nat = (List.length kw' =? 0)%nat.
Proof.
  intros Hsame. destruct kw as [| x kw]; destruct kw' as [| y kw']; try reflexivity.
  - destruct (proj2 (Hsame y) (or_introl eq_refl)).
  - destruct (proj1 (Hsame x) (or_introl eq_refl)).
Qed.

End KeywordSets.

(** The keyword similarity is a similarity of sets: it does not depend on
    the order of its two arguments, nor on the order or the repetition of
    the keywords in either.  Without rounding error it lies in [0, 1], is 1
    for a non-empty list against itself and 0 for lists without a common
    keyword. *)
Theorem keywordSimilarity_of_sets :
  (forall (A : Type) (N : JSNumber A) (kwA kwB : list string),
      keywordSimilarity (A := A) kwA kwB = keywordSimilarity kwB kwA)
  /\ (forall (A : Type) (N : JSNumber A) (kwA kwA' kwB kwB' : list string),
         (forall w, In w kwA <-> In w kwA') ->
         (forall w, In w kwB <-> In w kwB') ->
         keywordSimilarity (A := A) kwA kwB = keywordSimilarity kwA' kwB')
  /\ (forall kwA kwB : list string,
         (0 <= keywordSimilarity kwA kwB <= 1)%R)
  /\ (forall kwA : list string,
         kwA <> [] -> keywordSimilarity kwA kwA = 1%R)
  /\ (forall kwA kwB : list string,
         (forall w, In w kwA -> ~ In w kwB) ->
         keywordSimilarity kwA kwB = 0%R).
Proof.
  split; [| split; [| split; [| split]]].
  - intros A N kwA kwB. apply keywordSimilarity_swap.
  - intros A N kwA kwA' kwB kwB' HA HB. rewrite !keywordSimilarity_counts.
    destruct (counts_of_sets kwA kwA' kwB kwB' HA HB) as (-> & ->).
    now rewrite (length_zero_of_set kwA kwA' HA), (length_zero_of_set kwB kwB' HB).
  - intros kwA kwB. apply keywordSimilarity_range.
  - intros kwA Hne. rewrite keywordSimilarity_counts.
    pose proof (either_pos kwA kwA Hne) as Hpos.
    destruct kwA as [| w kwA]; [contradiction |]. cbn [List.length Nat.eqb orb].
    destruct (Nat.eqb_spec (either (w :: kwA) (w :: kwA)) 0) as [| _]; [lia |].
    rewrite common_self. cbn [div R_JSNumber]. rewrite ofnat_INR.
    field. apply not_0_INR. lia.
  - intros kwA kwB Hdisj. rewrite keywordSimilarity_counts.
    destruct (_ || _)%bool; [reflexivity |].
    destruct (Nat.eqb_spec (either kwA kwB) 0) as [| Hne]; [reflexivity |].
    assert (Hzero : common kwA kwB = 0%nat).
    { unfold common.
      destruct (filter _ _) as [| w l] eqn:Hf; [reflexivity |].
      assert (Hin : In w (w :: l)) by now left.
      rewrite <- Hf in Hin. apply common_In in Hin.
      destruct (Hdisj w); tauto. }
    rewrite Hzero. cbn [div R_JSNumber]. rewrite !ofnat_INR. cbn [INR].
    unfold Rdiv. ring.
Qed.

Lemma keywordSimilarity_of_sets_witness :
  keywordSimilarity ["fed"; "raise"; "rates"]%string ["fed"; "raise"; "rates"]%string
  = 1%R
  /\ keywordSimilarity (A := R) ["fed"; "rates"; "fed"]%string ["rates"]%string
     = keywordSimilarity ["rates"; "fed"]%string ["rates"; "rates"]%string.
Proof.
  split.
  - apply (proj1 (proj2 (proj2 (proj2 keywordSimilarity_of_sets)))). discriminate.
  - apply (proj1 (proj2 keywordSimilarity_of_sets) R R_JSNumber);
      intros w; simpl; tauto.
Defined.

(** *** Keywords: what a keyword can be *)

Section KeywordTokens.

Import Keywords.
Local Open Scope string_scope.










End KeywordTokens.



(** *** Relatedness: the reason, the upper bound, the two directions *)

Section RelatednessFurther.

Import RelatednessSpec.
Local Open Scope R_scope.

(** Both markets carry the same non-empty event ticker. *)
Definition same_event (target candidate : Market R) : Prop :=
  exists s, event_ticker target = Some s /\ s <> EmptyString
            /\ event_ticker candidate = Some s.

Lemma same_nonempty_spec (target candidate : Market R) :
  same_nonempty (event_ticker target) (event_ticker candidate) = true
  <-> same_event target candidate.
Proof.
  unfold same_nonempty, same_event.
  destruct (event_ticker target) as [x |]; destruct (event_ticker candidate) as [y |].
  - rewrite andb_true_iff, negb_true_iff, Nat.eqb_neq, String.eqb_eq. split.
    + intros (Hne & <-). exists x. repeat split. intros ->. now apply Hne.
    + intros (s & Hx & Hne & Hy). injection Hx as ->. injection Hy as ->.
      split; [| reflexivity]. destruct s; [contradiction | discriminate].
  - split; [discriminate | now intros (s & _ & _ & [=])].
  - split; [discriminate | now intros (s & [=] & _)].
  - split; [discriminate | now intros (s & [=] & _)].
Qed.

Lemma same_nonempty_swap (a b : option string) : same_nonempty a b = same_nonempty b a.
Proof.
  unfold same_nonempty. destruct a as [x |]; destruct b as [y |]; try reflexivity.
  destruct (String.eqb_spec x y) as [-> | Hne].
  - now rewrite String.eqb_refl.
  - rewrite andb_false_r. destruct (String.eqb_spec y x); [congruence |].
    now rewrite andb_false_r.
Qed.

Lemma computeRelatedness_reason (target candidate : Market R) :
  reason (computeRelatedness target candidate)
  = (if same_nonempty (event_ticker target) (event_ticker candidate) then "SAME EVENT"
     else if Rlt_dec 0 (titleSimilarity target candidate)
          then "TOPIC " ++ toFixed0 (titleSimilarity target candidate * 100) ++ "%"
          else "")%string.
Proof.
  unfold computeRelatedness. cbv zeta.
  fold (titleSimilarity target candidate).
  set (kwSim := titleSimilarity target candidate).
  cbn [ofZ mul ltb R_JSNumber]. unfold Exact.ltb.
  destruct (same_nonempty _ _); destruct (Rlt_dec 0 kwSim);
    destruct (last_price target); destruct (last_price candidate); reflexivity.
Qed.

Lemma titleSimilarity_range (target candidate : Market R) :
  0 <= titleSimilarity target candidate <= 1.
Proof. apply keywordSimilarity_range. Qed.

End RelatednessFurther.


(** computeRelatedness gives the same score and the same reason when target
    and candidate are exchanged. *)
Theorem computeRelatedness_symmetric (target candidate : Market R) :
  computeRelatedness target candidate = computeRelatedness candidate target.
Proof.
  assert (Hsim : RelatednessSpec.titleSimilarity target candidate
                 = RelatednessSpec.titleSimilarity candidate target)
    by apply keywordSimilarity_swap.
  assert (Hscore : score (computeRelatedness target candidate)
                   = score (computeRelatedness candidate target)).
  { destruct (computeRelatedness_exact target candidate) as (-> & _).
    destruct (computeRelatedness_exact candidate target) as (-> & _).
    unfold RelatednessSpec.event_term, RelatednessSpec.topic_term,
      RelatednessSpec.price_term.
    cbv zeta. rewrite Hsim, (same_nonempty_swap (event_ticker target)).
    destruct (last_price target) as [pt |];
      destruct (last_price candidate) as [pc |]; try reflexivity.
    now rewrite (Rabs_minus_sym pt pc). }
  assert (Hreason : reason (computeRelatedness target candidate)
                    = reason (computeRelatedness candidate target)).
  { rewrite !computeRelatedness_reason.
    now rewrite Hsim, (same_nonempty_swap (event_ticker target)). }
  destruct (computeRelatedness target candidate) as [s1 r1].
  destruct (computeRelatedness candidate target) as [s2 r2].
  cbn [score reason] in Hscore, Hreason. now subst.
Qed.
(** ** Further properties of the components *)

(** *** Sorting by a key, largest first *)

Section SortFacts.

Context {X : Type}.
Variable key : X -> R.
Local Open Scope R_scope.

(** The order of a list sorted by descending key. *)
Definition descending (a b : X) : Prop := key b <= key a.

Lemma sort_insert_Permutation (compare : X -> X -> R) (x : X) (l : list X) :
  Permutation (sort_insert compare x l) (x :: l).
Proof.
  induction l as [| y l IH]; cbn [sort_insert]; [reflexivity |].
  destruct (ltb _ _); [| reflexivity].
  rewrite IH. apply perm_swap.
Qed.

Lemma Array_sort_Permutation (compare : X -> X -> R) (l : list X) :
  Permutation (Array_sort compare l) l.
Proof.
  induction l as [| x l IH]; cbn [Array_sort fold_right]; [reflexivity |].
  rewrite sort_insert_Permutation. now constructor.
Qed.

Lemma Array_sort_In (compare : X -> X -> R) (l : list X) (x : X) :
  In x (Array_sort compare l) <-> In x l.
Proof.
  split; apply Permutation_in;
    [apply Array_sort_Permutation | symmetry; apply Array_sort_Permutation].
Qed.

Lemma sort_insert_descending (x : X) (l : list X) :
  StronglySorted descending l ->
  StronglySorted descending (sort_insert (fun a b => sub (key b) (key a)) x l).
Proof.
  induction 1 as [| y l Hs IH Hall]; cbn [sort_insert].
  - constructor; constructor.
  - destruct (ltb _ _) eqn:Hlt.
    + apply R_ltb_true in Hlt. cbn [ofZ sub R_JSNumber] in Hlt.
      constructor; [exact IH |].
      apply Forall_forall. intros z Hz.
      apply (Permutation_in _ (sort_insert_Permutation _ x l)) in Hz.
      destruct Hz as [<- | Hz].
      * unfold descending. lra.
      * rewrite Forall_forall in Hall. now apply Hall.
    + apply R_ltb_false in Hlt. cbn [ofZ sub R_JSNumber] in Hlt.
      constructor; [now constructor |].
      constructor; [unfold descending; lra |].
      rewrite Forall_forall in *. intros z Hz. specialize (Hall z Hz).
      unfold descending in *. lra.
Qed.

Lemma Array_sort_descending (l : list X) :
  StronglySorted descending (Array_sort (fun a b => sub (key b) (key a)) l).
Proof.
  induction l as [| x l IH]; cbn [Array_sort fold_right]; [constructor |].
  now apply sort_insert_descending.
Qed.

Lemma StronglySorted_filter (P : X -> X -> Prop) (f : X -> bool) (l : list X) :
  StronglySorted P l -> StronglySorted P (filter f l).
Proof.
  induction 1 as [| y l Hs IH Hall]; cbn [filter]; [constructor |].
  destruct (f y); [| exact IH].
  constructor; [exact IH |].
  rewrite Forall_forall in *. intros z Hz. apply filter_In in Hz. now apply Hall.
Qed.

Lemma StronglySorted_firstn_skipn (P : X -> X -> Prop) (n : nat) (l : list X) :
  StronglySorted P l ->
  StronglySorted P (firstn n l)
  /\ forall x y, In x (firstn n l) -> In y (skipn n l) -> P x y.
Proof.
  intros Hs. revert n.
  induction Hs as [| y l Hs IH Hall]; intros [| n]; cbn [firstn skipn].
  - split; [constructor | contradiction].
  - split; [constructor | contradiction].
  - split; [constructor | contradiction].
  - destruct (IH n) as (IH1 & IH2). rewrite Forall_forall in Hall. split.
    + constructor; [exact IH1 |].
      apply Forall_forall. intros z Hz. apply Hall.
      rewrite <- (firstn_skipn n l). apply in_or_app. now left.
    + intros x z [<- | Hx] Hz.
      * apply Hall. rewrite <- (firstn_skipn n l). apply in_or_app. now right.
      * now apply IH2.
Qed.

Lemma In_firstn (n : nat) (l : list X) (x : X) : In x (firstn n l) -> In x l.
Proof.
  intros Hx. rewrite <- (firstn_skipn n l). apply in_or_app. now left.
Qed.

Lemma In_firstn_or_skipn (n : nat) (l : list X) (x : X) :
  In x l -> In x (firstn n l) \/ In x (skipn n l).
Proof.
  intros Hx. rewrite <- (firstn_skipn n l) in Hx. now apply in_app_or in Hx.
Qed.

End SortFacts.

(** *** computeVolumeAnalysis: the rank among the traded markets *)

Section VolumeFacts.

Import VolumeAnalysis Statistics.
Local Open Scope R_scope.

(** The volumes that count: those above zero. *)
Definition positive_volumes (ms : list (MarketRow R)) : list R :=
  filter (fun v => ltb 0 v) (map volumeOr0 ms).

(** How many values of a list are strictly larger than [v]. *)
Definition larger_than (v : R) (vs : list R) : nat :=
  List.length (filter (fun x => ltb v x) vs).

Lemma positive_volumes_In (ms : list (MarketRow R)) (v : R) :
  In v (positive_volumes ms) <-> (exists m, In m ms /\ volumeOr0 m = v) /\ 0 < v.
Proof.
  unfold positive_volumes. rewrite filter_In, in_map_iff, R_ltb_true.
  cbn [ofZ R_JSNumber]. split.
  - intros ((m & Hm & Hin) & Hpos). split; [now exists m | exact Hpos].
  - intros ((m & Hin & Hm) & Hpos). split; [now exists m | exact Hpos].
Qed.

Lemma indexOf_from_absent (vs : list R) (v : R) (i : Z) :
  ~ In v vs -> indexOf_from vs v i = (-1)%Z.
Proof.
  revert i. induction vs as [| x vs IH]; intros i Hn; cbn [indexOf_from]; [reflexivity |].
  destruct (eqb x v) eqn:He.
  - apply R_eqb_true in He. exfalso. apply Hn. now left.
  - apply IH. intros Hin. apply Hn. now right.
Qed.

Lemma larger_than_none (v : R) (vs : list R) :
  Forall (fun x => x <= v) vs -> larger_than v vs = 0%nat.
Proof.
  unfold larger_than. induction 1 as [| x vs Hx _ IH]; cbn [filter]; [reflexivity |].
  destruct (ltb v x) eqn:Hlt; [apply R_ltb_true in Hlt; lra | exact IH].
Qed.

Lemma indexOf_from_descending (vs : list R) (v : R) (i : Z) :
  StronglySorted (fun a b => b <= a) vs -> In v vs ->
  indexOf_from vs v i = (i + Z.of_nat (larger_than v vs))%Z.
Proof.
  intros Hs. revert i.
  induction Hs as [| x vs Hs IH Hall]; intros i Hin; [contradiction |].
  cbn [indexOf_from]. unfold larger_than. cbn [filter]. fold (larger_than v vs).
  destruct (eqb x v) eqn:He.
  - apply R_eqb_true in He. subst x.
    destruct (ltb v v) eqn:Hlt; [apply R_ltb_true in Hlt; lra |].
    fold (larger_than v vs). rewrite (larger_than_none v vs Hall). lia.
  - apply R_eqb_false in He.
    destruct Hin as [Hx | Hin]; [contradiction |].
    rewrite Forall_forall in Hall. specialize (Hall v Hin).
    destruct (ltb v x) eqn:Hlt; [| apply R_ltb_false in Hlt; lra].
    rewrite (IH _ Hin). cbn [List.length]. fold (larger_than v vs). lia.
Qed.

Lemma larger_than_Permutation (v : R) (vs vs' : list R) :
  Permutation vs vs' -> larger_than v vs = larger_than v vs'.
Proof.
  intros Hp. unfold larger_than. apply Permutation_length.
  now apply filter_Permutation.
Qed.

Lemma larger_than_lt (v : R) (vs : list R) :
  In v vs -> (larger_than v vs < List.length vs)%nat.
Proof.
  unfold larger_than. induction vs as [| x vs IH]; [contradiction |].
  intros [-> | Hin]; cbn [filter List.length].
  - destruct (ltb v v) eqn:Hlt; [apply R_ltb_true in Hlt; lra |].
    pose proof (filter_length_le (fun x => ltb v x) vs). lia.
  - specialize (IH Hin). destruct (ltb v x); cbn [List.length]; lia.
Qed.

Lemma total_positive (vs : list R) :
  vs <> [] -> Forall (fun x => 0 < x) vs -> 0 < total vs.
Proof.
  intros Hne Hall. induction Hall as [| x vs Hx Hall IH]; [contradiction |].
  cbn [total fold_right]. fold (total vs).
  destruct vs as [| y vs]; [cbn; lra |].
  assert (0 < total (y :: vs)) by (apply IH; discriminate). lra.
Qed.

Lemma positive_volumes_positive (ms : list (MarketRow R)) :
  Forall (fun x => 0 < x) (positive_volumes ms).
Proof.
  apply Forall_forall. intros v Hv. now apply positive_volumes_In in Hv.
Qed.

Lemma avg_positive (vs : list R) :
  vs <> [] -> Forall (fun x => 0 < x) vs -> 0 < avg vs.
Proof.
  intros Hne Hall. unfold avg. apply Rdiv_lt_0_compat.
  - now apply total_positive.
  - apply lt_0_INR. destruct vs; [contradiction | cbn; lia].
Qed.

(** computeVolumeAnalysis in the terms above. *)
Lemma computeVolumeAnalysis_exact (market : MarketRow R) (allMarkets : list (MarketRow R)) :
  let volumes := positive_volumes allMarkets in
  let vol := volumeOr0 market in
  computeVolumeAnalysis market allMarkets
  = match volumes with
    | [] => None
    | _ :: _ =>
        Some {| volume := vol;
                avgVolume := Math_round (avg volumes);
                relativeVolume := round2 (vol / avg volumes);
                volumeRank :=
                  (indexOf (Array_sort (fun a b => sub b a) volumes) vol + 1)%Z;
                totalMarkets := List.length volumes;
                isHotVolume := ltb 2 (vol / avg volumes) |}
    end.
Proof.
  cbv zeta. unfold computeVolumeAnalysis.
  change (filter _ (map volumeOr0 allMarkets)) with (positive_volumes allMarkets).
  pose proof (positive_volumes_positive allMarkets) as Hpos.
  destruct (positive_volumes allMarkets) as [| v vs] eqn:Hv; [reflexivity |].
  cbn [List.length Nat.eqb]. cbv zeta.
  rewrite sum_total, ofnat_INR.
  change (div (total (v :: vs)) (INR (S (List.length vs)))) with (avg (v :: vs)).
  assert (Havg : 0 < avg (v :: vs)) by (apply avg_positive; [discriminate | exact Hpos]).
  destruct (ltb (ofZ 0) (avg (v :: vs))) eqn:Hlt.
  - reflexivity.
  - apply R_ltb_false in Hlt. cbn [ofZ R_JSNumber] in Hlt. lra.
Qed.

Lemma volumeRank_exact (vol : R) (volumes : list R) :
  (In vol volumes ->
   indexOf (Array_sort (fun a b => sub b a) volumes) vol + 1
   = 1 + Z.of_nat (larger_than vol volumes))%Z
  /\ (~ In vol volumes ->
      indexOf (Array_sort (fun a b => sub b a) volumes) vol + 1 = 0)%Z.
Proof.
  unfold indexOf. split.
  - intros Hin.
    rewrite indexOf_from_descending.
    + rewrite (larger_than_Permutation vol _ volumes); [lia |].
      apply Array_sort_Permutation.
    + apply (Array_sort_descending (fun x : R => x)).
    + now apply Array_sort_In.
  - intros Hn. rewrite indexOf_from_absent; [reflexivity |].
    intros Hin. apply Hn. now apply Array_sort_In in Hin.
Qed.

End VolumeFacts.

(** A market of the list with a positive volume is ranked: its rank is one
    more than the number of positive volumes of the list that are strictly
    larger than its own (so equal volumes share the better rank), it lies
    between 1 and totalMarkets, the number of markets with a positive
    volume; and the market is flagged hot exactly when its volume is more
    than twice the average of the positive volumes. *)
Theorem computeVolumeAnalysis_rank (market : MarketRow R) (allMarkets : list (MarketRow R)) :
  In market allMarkets -> (0 < volumeOr0 market)%R ->
  exists r,
    VolumeAnalysis.computeVolumeAnalysis market allMarkets = Some r
    /\ VolumeAnalysis.totalMarkets r = List.length (positive_volumes allMarkets)
    /\ VolumeAnalysis.volumeRank r
       = (1 + Z.of_nat (larger_than (volumeOr0 market) (positive_volumes allMarkets)))%Z
    /\ (1 <= VolumeAnalysis.volumeRank r <= Z.of_nat (VolumeAnalysis.totalMarkets r))%Z
    /\ (VolumeAnalysis.isHotVolume r = true
        <-> (2 * Statistics.avg (positive_volumes allMarkets) < volumeOr0 market)%R).
Proof.
  intros Hin Hpos.
  assert (Hv : In (volumeOr0 market) (positive_volumes allMarkets)).
  { apply positive_volumes_In. split; [now exists market | exact Hpos]. }
  pose proof (computeVolumeAnalysis_exact market allMarkets) as He. cbv zeta in He.
  pose proof (positive_volumes_positive allMarkets) as Hall.
  destruct (positive_volumes allMarkets) as [| v vs] eqn:Hvs; [contradiction |].
  eexists. split; [exact He |].
  cbn [VolumeAnalysis.totalMarkets VolumeAnalysis.volumeRank VolumeAnalysis.isHotVolume].
  destruct (volumeRank_exact (volumeOr0 market) (v :: vs)) as (Hrank & _).
  rewrite (Hrank Hv).
  pose proof (larger_than_lt _ _ Hv) as Hlt.
  assert (Havg : (0 < Statistics.avg (v :: vs))%R)
    by (apply avg_positive; [discriminate | exact Hall]).
  repeat split; try lia.
  - intros H. apply R_ltb_true in H. cbn [ofZ R_JSNumber] in H.
    apply (Rmult_lt_compat_r _ _ _ Havg) in H.
    unfold Rdiv in H. rewrite Rmult_assoc, Rinv_l in H; lra.
  - intros H. apply R_ltb_true. cbn [ofZ R_JSNumber].
    apply (Rmult_lt_reg_r (Statistics.avg (v :: vs))); [exact Havg |].
    unfold Rdiv. rewrite Rmult_assoc, Rinv_l; lra.
Qed.

(** There is no analysis exactly when no market of the list has a positive
    volume.  When there is one, a market whose volume is missing, zero or
    not the volume of a market of the list has rank 0, and a market whose
    volume is missing or zero is not flagged hot. *)
Theorem computeVolumeAnalysis_unranked (market : MarketRow R) (allMarkets : list (MarketRow R)) :
  (VolumeAnalysis.computeVolumeAnalysis market allMarkets = None
   <-> positive_volumes allMarkets = [])
  /\ forall r,
       VolumeAnalysis.computeVolumeAnalysis market allMarkets = Some r ->
       (~ In (volumeOr0 market) (positive_volumes allMarkets) ->
        VolumeAnalysis.volumeRank r = 0%Z)
       /\ ((volumeOr0 market <= 0)%R ->
           VolumeAnalysis.volumeRank r = 0%Z
           /\ VolumeAnalysis.isHotVolume r = false).
Proof.
  pose proof (computeVolumeAnalysis_exact market allMarkets) as He. cbv zeta in He.
  pose proof (positive_volumes_positive allMarkets) as Hall.
  destruct (positive_volumes allMarkets) as [| v vs] eqn:Hvs.
  - rewrite He. split; [tauto | discriminate].
  - rewrite He. split; [split; discriminate |].
    intros r [= <-].
    cbn [VolumeAnalysis.volumeRank VolumeAnalysis.isHotVolume].
    destruct (volumeRank_exact (volumeOr0 market) (v :: vs)) as (_ & Hrank).
    split; [exact Hrank |].
    intros Hle. split.
    + apply Hrank. intros Hin. rewrite Forall_forall in Hall.
      specialize (Hall _ Hin). cbn beta in Hall. lra.
    + apply R_ltb_false. cbn [ofZ R_JSNumber].
      assert (Havg : (0 < Statistics.avg (v :: vs))%R)
        by (apply avg_positive; [discriminate | exact Hall]).
      assert (volumeOr0 market / Statistics.avg (v :: vs) <= 0)%R; [| lra].
      pose proof (Rinv_0_lt_compat _ Havg) as Hinv.
      unfold Rdiv. nra.
Qed.

(** *** The first entries of a list sorted by descending key *)

Section TopFacts.

Context {X : Type}.
Variable key : X -> R.
Local Open Scope R_scope.

(** [top] holds the [n] best entries of [l]: at most [n] of them, by
    descending key, all of [l]; an entry of [l] left out finds [top] full
    of entries that are no worse. *)
Definition best_of (n : nat) (l top : list X) : Prop :=
  (List.length top <= n)%nat
  /\ StronglySorted (descending key) top
  /\ (forall x, In x top -> In x l)
  /\ (forall x, In x l ->
        In x top
        \/ (List.length top = n /\ forall e, In e top -> key x <= key e)).

Lemma firstn_best_of (n : nat) (l : list X) :
  StronglySorted (descending key) l -> best_of n l (firstn n l).
Proof.
  intros Hs.
  destruct (StronglySorted_firstn_skipn (descending key) n l Hs) as (Hf & Hfs).
  repeat split.
  - apply firstn_le_length.
  - exact Hf.
  - intros x. apply In_firstn.
  - intros x Hx. destruct (In_firstn_or_skipn n l x Hx) as [Hin | Hin]; [now left |].
    right. split.
    + destruct (Nat.le_gt_cases (List.length l) n) as [Hle | Hgt].
      * rewrite (skipn_all2 _ Hle) in Hin. contradiction.
      * apply firstn_length_le. lia.
    + intros e He. exact (Hfs e x He Hin).
Qed.

Lemma best_of_iff (n : nat) (l l' top : list X) :
  (forall x, In x l <-> In x l') -> best_of n l top -> best_of n l' top.
Proof.
  intros Hiff (Hlen & Hs & Hsub & Hbest). repeat split; try assumption.
  - intros x Hx. apply Hiff. now apply Hsub.
  - intros x Hx. apply Hbest. now apply Hiff.
Qed.

End TopFacts.

(** *** The scans of the Scanner and of the chart *)

Section ScanFacts.

Import RelatednessSpec.
Local Open Scope R_scope.

(** The markets the Scanner scores against [ref] and keeps: those with
    another ticker whose score is above 0.01. *)
Definition scanned (ref : MarketRow R) (allMarkets : list (MarketRow R))
           (e : @Scored R) : Prop :=
  In (fst e) allMarkets
  /\ Text.strict_eq (ticker (fst e)) (ticker ref) = false
  /\ snd e = computeRelatedness (market ref) (market (fst e))
  /\ 1 / 100 < scoreOf e.

(** The target the chart scores against: it has no price. *)
Definition targetInfo (title0 eventTicker : option string) : Market R :=
  {| event_ticker := eventTicker; title := title0;
     event_title := None; last_price := None |}.

(** The markets the chart keeps: those whose score is above 0.05. *)
Definition charted (title0 eventTicker : option string)
           (allMarkets : list (MarketRow R)) (e : @Scored R) : Prop :=
  In (fst e) allMarkets
  /\ snd e = computeRelatedness (targetInfo title0 eventTicker) (market (fst e))
  /\ 5 / 100 < scoreOf e.

Lemma byScoreDescending_key :
  @byScoreDescending R _ = (fun a b => sub (scoreOf b) (scoreOf a)).
Proof. reflexivity. Qed.

Lemma scanned_In (ref : MarketRow R) (allMarkets : list (MarketRow R)) (e : @Scored R) :
  In e (filter (fun m => ltb (div (ofZ 1) (ofZ 100)) (scoreOf m))
          (map (fun m => (m, computeRelatedness (market ref) (market m)))
             (filter (fun m => negb (Text.strict_eq (ticker m) (ticker ref)))
                allMarkets)))
  <-> scanned ref allMarkets e.
Proof.
  unfold scanned. rewrite filter_In, in_map_iff, R_ltb_true.
  cbn [ofZ div R_JSNumber]. split.
  - intros ((m & <- & Hm) & Hs). apply filter_In in Hm as (Hin & Hneq).
    apply negb_true_iff in Hneq. cbn [fst snd]. now repeat split.
  - intros (Hin & Hneq & Hsnd & Hs). split; [| exact Hs].
    exists (fst e). split.
    + destruct e as [m r]. cbn [fst snd] in *. now subst r.
    + apply filter_In. split; [exact Hin |]. now apply negb_true_iff.
Qed.

Lemma charted_In (title0 eventTicker : option string)
      (allMarkets : list (MarketRow R)) (e : @Scored R) :
  In e (filter (fun m => ltb (div (ofZ 5) (ofZ 100)) (scoreOf m))
          (Array_sort byScoreDescending
             (map (fun m => (m, computeRelatedness (targetInfo title0 eventTicker)
                                                   (market m)))
                allMarkets)))
  <-> charted title0 eventTicker allMarkets e.
Proof.
  unfold charted. rewrite filter_In, Array_sort_In, in_map_iff, R_ltb_true.
  cbn [ofZ div R_JSNumber]. split.
  - intros ((m & <- & Hm) & Hs). cbn [fst snd]. now repeat split.
  - intros (Hin & Hsnd & Hs). split; [| exact Hs].
    exists (fst e). split; [| exact Hin].
    destruct e as [m r]. cbn [fst snd] in *. now subst r.
Qed.

(** With a target that has no price, the score is made of the event and
    the topic alone. *)
Lemma targetInfo_score (title0 eventTicker : option string) (candidate : Market R) :
  score (computeRelatedness (targetInfo title0 eventTicker) candidate)
  = event_term (targetInfo title0 eventTicker) candidate
    + topic_term (targetInfo title0 eventTicker) candidate.
Proof.
  destruct (computeRelatedness_exact (targetInfo title0 eventTicker) candidate)
    as (-> & _).
  unfold price_term. cbn [last_price targetInfo]. lra.
Qed.

Lemma reason_blank (target candidate : Market R) :
  reason (computeRelatedness target candidate) = ""%string ->
  event_term target candidate = 0 /\ topic_term target candidate = 0.
Proof.
  rewrite computeRelatedness_reason. unfold event_term, topic_term. cbv zeta.
  destruct (same_nonempty _ _); [discriminate |].
  destruct (Rlt_dec 0 (titleSimilarity target candidate)); [discriminate |].
  now split.
Qed.

End ScanFacts.

(** The Scanner's result holds the 30 best of the markets that have another
    ticker than the reference and a score above 0.01 against it: at most 30
    entries, by descending score, each such a market with its relatedness to
    the reference; and such a market is left out only when the result is
    full of 30 entries that score no lower. *)
Theorem scoreAll_best_30 (ref : MarketRow R) (allMarkets : list (MarketRow R)) :
  (List.length (scoreAll ref allMarkets) <= 30)%nat
  /\ StronglySorted (fun a b => (scoreOf b <= scoreOf a)%R) (scoreAll ref allMarkets)
  /\ (forall e, In e (scoreAll ref allMarkets) -> scanned ref allMarkets e)
  /\ (forall e, scanned ref allMarkets e ->
        In e (scoreAll ref allMarkets)
        \/ (List.length (scoreAll ref allMarkets) = 30%nat
            /\ forall e', In e' (scoreAll ref allMarkets) ->
                 (scoreOf e <= scoreOf e')%R)).
Proof.
  unfold scoreAll. rewrite byScoreDescending_key.
  set (kept := filter _ _).
  pose proof (firstn_best_of scoreOf 30 _ (Array_sort_descending scoreOf kept)) as Hb.
  apply (best_of_iff scoreOf 30 _ kept) in Hb; [| apply Array_sort_In].
  destruct Hb as (Hlen & Hs & Hsub & Hbest).
  split; [exact Hlen |]. split; [exact Hs |]. split.
  - intros e He. apply scanned_In. now apply Hsub.
  - intros e He. apply Hbest. now apply scanned_In.
Qed.

(** An entry of the Scanner's result may have no reason: then the two
    markets share neither event nor keyword, both prices are known and less
    than 90 apart, and the score, at most 0.1, is that of the prices
    alone. *)
Theorem scoreAll_blank_reason (ref : MarketRow R) (allMarkets : list (MarketRow R))
        (e : @Scored R) :
  In e (scoreAll ref allMarkets) ->
  reason (snd e) = ""%string ->
  exists pt pc,
    last_price (market ref) = Some pt
    /\ last_price (market (fst e)) = Some pc
    /\ (Rabs (pt - pc) < 90)%R
    /\ scoreOf e = ((1 - Rabs (pt - pc) / 100) * (1 / 10))%R
    /\ (scoreOf e <= 1 / 10)%R.
Proof.
  intros He Hblank.
  unfold scoreAll in He. apply In_firstn in He.
  rewrite byScoreDescending_key in He. apply Array_sort_In in He.
  apply scanned_In in He. destruct He as (_ & _ & Hsnd & Hs).
  unfold scoreOf in *. rewrite Hsnd in *.
  destruct (reason_blank _ _ Hblank) as (Hev & Htopic).
  destruct (computeRelatedness_exact (market ref) (market (fst e))) as (Hscore & _).
  rewrite Hscore, Hev, Htopic in *.
  unfold RelatednessSpec.price_term in *.
  destruct (last_price (market ref)) as [pt |]; [| lra].
  destruct (last_price (market (fst e))) as [pc |]; [| lra].
  exists pt, pc. pose proof (Rabs_pos (pt - pc)).
  repeat split; lra.
Qed.

(** The chart's related markets are the 8 best of the markets that score
    above 0.05 against the target: at most 8 entries, by descending score,
    and a market above 0.05 is left out only when the list is full of 8
    entries that score no lower.  As the target has no price, every entry
    has a reason, and its score is at most 1.4. *)
Theorem topRelated_best_8 (title0 eventTicker : option string)
        (allMarkets : list (MarketRow R)) :
  let top := topRelated title0 eventTicker allMarkets in
  (List.length top <= 8)%nat
  /\ StronglySorted (fun a b => (scoreOf b <= scoreOf a)%R) top
  /\ (forall e, In e top ->
        charted title0 eventTicker allMarkets e
        /\ reason (snd e) <> ""%string
        /\ (scoreOf e <= 14 / 10)%R)
  /\ (forall e, charted title0 eventTicker allMarkets e ->
        In e top
        \/ (List.length top = 8%nat
            /\ forall e', In e' top -> (scoreOf e <= scoreOf e')%R)).
Proof.
  cbv zeta. unfold topRelated. cbv zeta. fold (targetInfo title0 eventTicker).
  set (kept := filter _ _).
  assert (Hsorted : StronglySorted (descending scoreOf) kept).
  { apply StronglySorted_filter. rewrite byScoreDescending_key.
    apply Array_sort_descending. }
  destruct (firstn_best_of scoreOf 8 kept Hsorted) as (Hlen & Hs & Hsub & Hbest).
  split; [exact Hlen |]. split; [exact Hs |]. split.
  intros e He. apply Hsub, charted_In in He. split; [exact He |].
  destruct He as (_ & Hsnd & Hscore). unfold scoreOf in *. split.
  - intros Hblank. rewrite Hsnd in Hblank, Hscore.
    destruct (reason_blank _ _ Hblank) as (Hev & Htopic).
    rewrite targetInfo_score, Hev, Htopic in Hscore. lra.
  - rewrite Hsnd, targetInfo_score.
    unfold RelatednessSpec.event_term, RelatednessSpec.topic_term. cbv zeta.
    pose proof (titleSimilarity_range (targetInfo title0 eventTicker)
                  (market (fst e))) as Hsim.
    destruct (same_nonempty _ _);
      destruct (Rlt_dec 0 (RelatednessSpec.titleSimilarity _ _)); lra.
  - intros e He. apply Hbest. now apply charted_In.
Qed.

(** *** Events and their markets *)

Section EventFacts.

Local Open Scope R_scope.

Lemma flattenEvents_In (events : list (Ev.Event R)) (m : MarketRow R) :
  In m (flattenEvents events)
  <-> exists ev m0, In ev events /\ In m0 (marketsOf ev) /\ m = withEvent ev m0.
Proof.
  unfold flattenEvents. rewrite in_flat_map. split.
  - intros (ev & Hev & Hm). apply in_map_iff in Hm as (m0 & <- & Hm0).
    now exists ev, m0.
  - intros (ev & m0 & Hev & Hm0 & ->). exists ev. split; [exact Hev |].
    now apply in_map.
Qed.

Lemma chartMarkets_In (ticker0 : string) (events : list (Ev.Event R)) (m : MarketRow R) :
  In m (chartMarkets ticker0 events)
  <-> exists ev m0,
        In ev events /\ In m0 (marketsOf ev)
        /\ ticker m0 <> Some ticker0 /\ m = withEvent ev m0.
Proof.
  assert (Hneq : forall m0 : MarketRow R,
             negb (Text.strict_eq (ticker m0) (Some ticker0)) = true
             <-> ticker m0 <> Some ticker0).
  { intros m0. rewrite negb_true_iff. unfold Text.strict_eq.
    destruct (ticker m0) as [s |].
    - destruct (String.eqb_spec s ticker0) as [-> | Hne]; split; try easy.
      intros _ [= Heq]. now apply Hne.
    - split; [discriminate | reflexivity]. }
  unfold chartMarkets. rewrite in_flat_map. split.
  - intros (ev & Hev & Hm). apply in_map_iff in Hm as (m0 & <- & Hm0).
    apply filter_In in Hm0 as (Hm0 & Hn). exists ev, m0.
    repeat split; try assumption. now apply Hneq.
  - intros (ev & m0 & Hev & Hm0 & Hn & ->). exists ev. split; [exact Hev |].
    apply in_map, filter_In. split; [exact Hm0 |]. now apply Hneq.
Qed.

Lemma reason_same_event (target candidate : Market R) :
  reason (computeRelatedness target candidate) = "SAME EVENT"%string
  <-> same_event target candidate.
Proof.
  rewrite <- same_nonempty_spec, computeRelatedness_reason.
  destruct (same_nonempty _ _); [tauto |].
  destruct (Rlt_dec 0 _); split; discriminate.
Qed.

(** The events whose markets are mispriced: at least two markets have a
    known positive price and the prices sum to more than 15 away from
    100. *)
Definition mispriced (ev : Ev.Event R) : Prop :=
  let priced := filter hasPrice (map market (marketsOf ev)) in
  (2 <= List.length priced)%nat
  /\ 15 < Rabs (ArbitrageSpec.sum_prices priced - 100).

End EventFacts.

(** The market list of the Scanner holds exactly the markets of the events,
    each with the ticker and the title of its event in place of its own
    event fields; so two of its markets are related by "SAME EVENT" exactly
    when their events carry the same non-empty ticker, whatever the markets
    themselves say of their event. *)
Theorem flattenEvents_same_event (events : list (Ev.Event R))
        (ev1 ev2 : Ev.Event R) (m1 m2 : MarketRow R) :
  In ev1 events -> In ev2 events ->
  In m1 (marketsOf ev1) -> In m2 (marketsOf ev2) ->
  In (withEvent ev1 m1) (flattenEvents events)
  /\ In (withEvent ev2 m2) (flattenEvents events)
  /\ (reason (computeRelatedness (market (withEvent ev1 m1))
                                 (market (withEvent ev2 m2)))
      = "SAME EVENT"%string
      <-> exists s, Ev.event_ticker ev1 = Some s /\ s <> EmptyString
                    /\ Ev.event_ticker ev2 = Some s).
Proof.
  intros Hev1 Hev2 Hm1 Hm2.
  split; [apply flattenEvents_In; now exists ev1, m1 |].
  split; [apply flattenEvents_In; now exists ev2, m2 |].
  apply reason_same_event.
Qed.

(** The market list accumulates over the pages: the markets of the events
    of two pages are those of the first page followed by those of the
    second; and it holds as many markets as the events do. *)
Lemma flattenEvents_pages (page1 page2 : list (Ev.Event R)) :
  flattenEvents (page1 ++ page2) = flattenEvents page1 ++ flattenEvents page2
  /\ List.length (flattenEvents page1)
     = list_sum (map (fun ev => List.length (marketsOf ev)) page1)
  /\ map ticker (flattenEvents page1) = flat_map (fun ev => map ticker (marketsOf ev)) page1.
Proof.
  unfold flattenEvents. split; [apply flat_map_app |]. split.
  - induction page1 as [| ev evs IH]; [reflexivity |].
    cbn [flat_map map list_sum]. now rewrite length_app, length_map, IH.
  - induction page1 as [| ev evs IH]; [reflexivity |].
    cbn [flat_map]. rewrite map_app, IH, map_map. reflexivity.
Qed.

(** The arbitrage scan reports exactly the mispriced events of the list,
    each with the rounded sum of the prices of its priced markets, the
    rounded overround and the number of priced markets. *)
Theorem scanArbitrage_mispriced (events : list (Ev.Event R))
        (arb : Arbitrage R) (ev : Ev.Event R) :
  In (arb, ev) (scanArbitrage events)
  <-> In ev events /\ mispriced ev
      /\ arb = (let priced := filter hasPrice (map market (marketsOf ev)) in
                let total := ArbitrageSpec.sum_prices priced in
                {| totalImpliedPct := round1 total;
                   overround := round1 (total - 100)%R;
                   marketCount := List.length priced;
                   isMispriced := true |}).
Proof.
  unfold scanArbitrage, mispriced. rewrite in_flat_map. cbv zeta.
  split.
  - intros (ev' & Hev & Hin).
    rewrite detectArbitrage_exact in Hin. cbv zeta in Hin.
    destruct (Nat.ltb_spec (List.length (filter hasPrice (map market (marketsOf ev')))) 2)
      as [Hlt | Hge]; [contradiction |].
    cbn [isMispriced] in Hin.
    destruct (ltb 15%R _) eqn:Hmis; [| contradiction].
    destruct Hin as [[= <- <-] | []].
    apply R_ltb_true in Hmis. now repeat split.
  - intros (Hev & (Hge & Hmis) & ->). exists ev. split; [exact Hev |].
    rewrite detectArbitrage_exact. cbv zeta.
    destruct (Nat.ltb_spec (List.length (filter hasPrice (map market (marketsOf ev)))) 2)
      as [Hlt | _]; [lia |].
    cbn [isMispriced]. apply R_ltb_true in Hmis. rewrite Hmis. now left.
Qed.

(** *** Texts: prefixes, parts, the case of the letters *)

Section TextFacts.

Import Keywords Text.
Local Open Scope string_scope.









End TextFacts.

(** *** findRef *)

Section FindRefFacts.

Context {A : Type} `{JSNumber A}.
Import Text.
Local Open Scope string_scope.



End FindRefFacts.



(** *** categorizeEvent *)

Section CategoryFacts.

Import Keywords Text Category.
Local Open Scope string_scope.




End CategoryFacts.


(** *** fetchAllOpenMarkets: the requests and the result *)

Section PaginationFacts.

Import Pagination.

Variable M : Type.
Variable fetchMarkets : nat -> option string -> option (Page M).

(** The cursor the chain of answers gives to the [k]-th request: none for
    the first, then the one of the previous answer; [None] when the chain
    ends before, at a failed request or an answer without cursor. *)
Fixpoint cursorAt (k : nat) : option (option string) :=
  match k with
  | O => Some None
  | S k' =>
      match cursorAt k' with
      | Some c =>
          match fetchMarkets k' c with
          | Some data =>
              match nextCursor M data with
              | Some s => Some (Some s)
              | None => None
              end
          | None => None
          end
      | None => None
      end
  end.

(** The answer to the [k]-th request of the chain. *)
Definition answerAt (k : nat) : option (Page M) :=
  match cursorAt k with
  | Some c => fetchMarkets k c
  | None => None
  end.

(** The markets of an answer. *)
Definition listOf (r : option (Page M)) : list M :=
  match r with
  | Some data => match markets data with Some l => l | None => [] end
  | None => []
  end.

(** The markets of the first [n] answers. *)
Definition marketsUpTo (n : nat) : list M :=
  flat_map (fun j => listOf (answerAt j)) (seq 0 n).

(** What holds of the requests made and of the result after [n] requests
    of at most [limit]. *)
Definition follows_chain (limit : nat) (asked : list (option string))
           (result : option (list M)) : Prop :=
  let n := List.length asked in
  (forall j, (j < n)%nat -> nth_error asked j = cursorAt j)
  /\ (n = limit \/ cursorAt n = None)
  /\ match result with
     | Some ms => (forall j, (j < n)%nat -> answerAt j <> None) /\ ms = marketsUpTo n
     | None => answerAt (n - 1) = None
     end.

Lemma marketsUpTo_S (k : nat) :
  marketsUpTo (S k) = marketsUpTo k ++ listOf (answerAt k).
Proof.
  unfold marketsUpTo. rewrite seq_S, flat_map_app. cbn [flat_map Nat.add].
  now rewrite app_nil_r.
Qed.

Lemma asked_snoc (k : nat) (asked : list (option string)) (cur : option string) :
  List.length asked = k ->
  (forall j, (j < k)%nat -> nth_error asked j = cursorAt j) ->
  cursorAt k = Some cur ->
  forall j, (j < S k)%nat -> nth_error (asked ++ [cur]) j = cursorAt j.
Proof.
  intros Hlen Hasked Hcur j Hj.
  destruct (Nat.eq_dec j k) as [-> | Hne].
  - rewrite nth_error_app2 by lia. rewrite Hlen, Nat.sub_diag. cbn. now rewrite Hcur.
  - rewrite nth_error_app1 by lia. apply Hasked. lia.
Qed.

Lemma pages_loop_follows_chain (remaining : nat) :
  forall (k : nat) (cur : option string) (allMarkets : list M)
         (asked : list (option string)),
    List.length asked = k ->
    (forall j, (j < k)%nat -> nth_error asked j = cursorAt j) ->
    (forall j, (j < k)%nat -> answerAt j <> None) ->
    allMarkets = marketsUpTo k ->
    cursorAt k = Some cur ->
    let out := pages_loop M fetchMarkets (S remaining) k cur allMarkets asked in
    (k < List.length (fst out) <= k + S remaining)%nat
    /\ follows_chain (k + S remaining) (fst out) (snd out).
Proof.
  induction remaining as [| remaining IH];
    intros k cur allMarkets asked Hlen Hasked Hans Hall Hcur; cbv zeta.
  - (* the last turn allowed *)
    cbn [pages_loop].
    assert (Hn : List.length (asked ++ [cur]) = S k)
      by (rewrite length_app; cbn; lia).
    pose proof (asked_snoc k asked cur Hlen Hasked Hcur) as Hsnoc.
    destruct (fetchMarkets k cur) as [data |] eqn:Hfetch.
    + assert (Hk : answerAt k = Some data) by (unfold answerAt; now rewrite Hcur).
      assert (Hout : (k < List.length (asked ++ [cur]) <= k + 1)%nat
                     /\ follows_chain (k + 1) (asked ++ [cur])
                          (Some (allMarkets ++ match markets data with
                                               | Some l => l | None => [] end))).
      { split; [lia |]. unfold follows_chain. cbv zeta. rewrite Hn.
        split; [exact Hsnoc |]. split; [left; lia |]. split.
        - intros j Hj. destruct (Nat.eq_dec j k) as [-> | Hne];
            [rewrite Hk; discriminate | apply Hans; lia].
        - rewrite marketsUpTo_S, Hk, Hall. reflexivity. }
      destruct (nextCursor M data); exact Hout.
    + cbn [fst snd]. split; [lia |]. unfold follows_chain. cbv zeta. rewrite Hn.
      split; [exact Hsnoc |]. split; [left; lia |].
      replace (S k - 1)%nat with k by lia. unfold answerAt. now rewrite Hcur.
  - (* a turn with more turns allowed *)
    change (pages_loop M fetchMarkets (S (S remaining)) k cur allMarkets asked)
      with (match fetchMarkets k cur with
            | None => (asked ++ [cur], None)
            | Some data =>
                let list := match markets data with Some l => l | None => [] end in
                let allMarkets' := allMarkets ++ list in
                match nextCursor M data with
                | Some c =>
                    pages_loop M fetchMarkets (S remaining) (S k) (Some c)
                               allMarkets' (asked ++ [cur])
                | None => (asked ++ [cur], Some allMarkets')
                end
            end).
    assert (Hn : List.length (asked ++ [cur]) = S k)
      by (rewrite length_app; cbn; lia).
    pose proof (asked_snoc k asked cur Hlen Hasked Hcur) as Hsnoc.
    destruct (fetchMarkets k cur) as [data |] eqn:Hfetch.
    + assert (Hk : answerAt k = Some data) by (unfold answerAt; now rewrite Hcur).
      cbv zeta. destruct (nextCursor M data) as [c |] eqn:Hnext.
      * assert (Hcur' : cursorAt (S k) = Some (Some c))
          by (cbn [cursorAt]; now rewrite Hcur, Hfetch, Hnext).
        destruct (IH (S k) (Some c)
                     (allMarkets ++ match markets data with
                                    | Some l => l | None => [] end)
                     (asked ++ [cur]) Hn Hsnoc) as (Hlen' & Hchain).
        -- intros j Hj. destruct (Nat.eq_dec j k) as [-> | Hne];
             [rewrite Hk; discriminate | apply Hans; lia].
        -- rewrite marketsUpTo_S, Hk, Hall. reflexivity.
        -- exact Hcur'.
        -- cbv zeta in Hlen', Hchain. split; [lia |].
           replace (k + S (S remaining))%nat with (S k + S remaining)%nat by lia.
           exact Hchain.
      * cbn [fst snd]. split; [lia |]. unfold follows_chain. cbv zeta.
        rewrite Hn. split; [exact Hsnoc |]. split.
        -- right. cbn [cursorAt]. now rewrite Hcur, Hfetch, Hnext.
        -- split.
           ++ intros j Hj. destruct (Nat.eq_dec j k) as [-> | Hne];
                [rewrite Hk; discriminate | apply Hans; lia].
           ++ rewrite marketsUpTo_S, Hk, Hall. reflexivity.
    + cbn [fst snd]. split; [lia |]. unfold follows_chain. cbv zeta.
      rewrite Hn. split; [exact Hsnoc |]. split.
      * right. cbn [cursorAt]. now rewrite Hcur, Hfetch.
      * replace (S k - 1)%nat with k by lia. unfold answerAt. now rewrite Hcur.
Qed.

(** fetchAllOpenMarkets makes at least one request and at most five.  The
    first has no cursor and each later one has the cursor of the answer
    before; the requests end at the fifth, at a failed one, or at an answer
    with no cursor or an empty one.  When a request fails nothing is
    returned; otherwise the result is the markets of all the answers, in
    the order of the requests: what the server holds beyond the fifth page
    is left out. *)
Theorem fetchAllOpenMarkets_requests :
  let out := fetchAllOpenMarkets M fetchMarkets in
  (1 <= List.length (fst out) <= 5)%nat
  /\ follows_chain 5 (fst out) (snd out).
Proof.
  cbv zeta. unfold fetchAllOpenMarkets, MAX_PAGES.
  destruct (pages_loop_follows_chain 4 0 None [] []) as (Hlen & Hchain);
    try reflexivity; try (intros j Hj; lia).
  cbv zeta in Hlen, Hchain. split; [lia | exact Hchain].
Qed.

End PaginationFacts.

(** The chart never lists the market it is drawn for: every related market
    is a market of some event, with another ticker than the chart's, under
    the ticker and the title of that event; and its reason is "SAME EVENT"
    exactly when that event carries the non-empty event ticker of the
    chart. *)
Theorem chart_related_markets (ticker0 : string) (title0 eventTicker : option string)
        (events : list (Ev.Event R)) :
  Forall
    (fun e : @Scored R =>
       ticker (fst e) <> Some ticker0
       /\ exists ev m0,
            In ev events /\ In m0 (marketsOf ev) /\ fst e = withEvent ev m0
            /\ (reason (snd e) = "SAME EVENT"%string
                <-> exists s, eventTicker = Some s /\ s <> EmptyString
                              /\ Ev.event_ticker ev = Some s))
    (topRelated title0 eventTicker (chartMarkets ticker0 events)).
Proof.
  apply Forall_forall. intros e He.
  unfold topRelated in He. cbv zeta in He. apply In_firstn in He.
  fold (targetInfo title0 eventTicker) in He.
  apply charted_In in He. destruct He as (Hin & Hsnd & _).
  apply chartMarkets_In in Hin. destruct Hin as (ev & m0 & Hev & Hm0 & Hne & Hfst).
  split; [now rewrite Hfst |].
  exists ev, m0. repeat split; try assumption.
  - intros Hr. rewrite Hsnd, Hfst in Hr. now apply reason_same_event in Hr.
  - intros Hs. rewrite Hsnd, Hfst. now apply reason_same_event.
Qed.

(** *** Examples *)

Section ComponentExamples.

Local Open Scope string_scope.

(** A market with a ticker and a price and nothing else. *)
Definition priced_row {A : Type} (name : string) (p : A) : MarketRow A :=
  {| ticker := Some name; volume := None;
     market := {| event_ticker := None; title := None;
                  event_title := None; last_price := Some p |} |}.

(** A market with a volume. *)
Definition volume_row {A : Type} (v : option A) : MarketRow A :=
  {| ticker := None; volume := v;
     market := {| event_ticker := None; title := None;
                  event_title := None; last_price := None |} |}.

Definition volume_rows {A : Type} `{JSNumber A} : list (MarketRow A) :=
  map volume_row [Some (ofZ 10); Some (ofZ 30); None; Some (ofZ 30); Some (ofZ 50)].

(** A market of an event, with a title. *)
Definition titled_row {A : Type} (name text : string) (p : A) : MarketRow A :=
  {| ticker := Some name; volume := None;
     market := {| event_ticker := None; title := Some text;
                  event_title := None; last_price := Some p |} |}.

(** The event "FED" with two markets and the event "ELECTION" with one. *)
Definition example_events {A : Type} `{JSNumber A} : list (Ev.Event A) :=
  [ {| Ev.event_ticker := Some "FED"; Ev.title := Some "Fed decision";
       Ev.markets := Some [titled_row "FED-HIKE" "Fed raise rates" (ofZ 30);
                            titled_row "FED-CUT" "Fed cut rates" (ofZ 60)] |};
    {| Ev.event_ticker := Some "ELECTION"; Ev.title := Some "Election";
       Ev.markets := Some [titled_row "ELECTION-X" "Who wins" (ofZ 45)] |} ].

(** A server with three pages of one market each. *)
Definition three_pages (k : nat) (c : option string) : option (Pagination.Page nat) :=
  match k with
  | 0%nat => Some {| Pagination.markets := Some [1%nat]; Pagination.cursor := Some "a" |}
  | 1%nat => Some {| Pagination.markets := Some [2%nat]; Pagination.cursor := Some "b" |}
  | 2%nat => Some {| Pagination.markets := Some [3%nat]; Pagination.cursor := Some "" |}
  | _ => None
  end.

(** A server that always has a next page. *)
Definition endless (k : nat) (c : option string) : option (Pagination.Page nat) :=
  Some {| Pagination.markets := Some [k]; Pagination.cursor := Some "next" |}.

(** On doubles: of the volumes 10, 30, none, 30 and 50 the market with 30
    has rank 2 of 4; the average is 30, rounded. *)
Remark computeVolumeAnalysis_on_doubles :
  VolumeAnalysis.computeVolumeAnalysis (volume_row (Some 30%float)) volume_rows
  = Some {| VolumeAnalysis.volume := 30%float;
            VolumeAnalysis.avgVolume := 30%float;
            VolumeAnalysis.relativeVolume := 1%float;
            VolumeAnalysis.volumeRank := 2%Z;
            VolumeAnalysis.totalMarkets := 4;
            VolumeAnalysis.isHotVolume := false |}.
Proof. vm_compute. reflexivity. Qed.

(** On doubles: the scan from the input "fed-hike" lists the sibling of
    "FED-HIKE" first, then the market of the other event, which has no
    reason. *)
Remark scoreAll_on_doubles :
  let allMarkets := flattenEvents (A := PrimFloat.float) example_events in
  match findRef allMarkets "fed-hike" with
  | Some ref =>
      map (fun e : @Scored PrimFloat.float => (ticker (fst e), reason (snd e)))
          (scoreAll ref allMarkets)
  | None => []
  end
  = [(Some "FED-CUT", "SAME EVENT"); (Some "ELECTION-X", "")]%string.
Proof. vm_compute. reflexivity. Qed.

(** On doubles: the chart of "FED-HIKE" lists its sibling alone. *)
Remark topRelated_on_doubles :
  map (fun e : @Scored PrimFloat.float => (ticker (fst e), reason (snd e)))
      (topRelated (Some "Fed raise rates") (Some "FED")
                  (chartMarkets "FED-HIKE" example_events))
  = [(Some "FED-CUT", "SAME EVENT")].
Proof. vm_compute. reflexivity. Qed.

Remark findRef_examples :
  option_map ticker (findRef (flattenEvents (A := PrimFloat.float) example_events)
                             " fed-cut ")
  = Some (Some "FED-CUT")
  /\ option_map ticker (findRef (flattenEvents (A := PrimFloat.float) example_events)
                                "cut")
     = Some (Some "FED-CUT")
  /\ option_map ticker (findRef (flattenEvents (A := PrimFloat.float) example_events)
                                "")
     = Some (Some "FED-HIKE")
  /\ findRef (flattenEvents (A := PrimFloat.float) example_events) "GOLD" = None.
Proof. vm_compute. repeat split. Qed.

Remark categorizeEvent_examples :
  Category.categorizeEvent "KXMVENBASINGLEGAME-1" "Celtics" = "sports"%string
  /\ Category.categorizeEvent "KXFED" "Fed rate in June" = "finance"%string
  /\ Category.categorizeEvent "KXOSCARS" "Who will celebrate" = "finance"%string
  /\ Category.categorizeEvent "KXOSCARS" "Best picture" = "culture"%string
  /\ Category.categorizeEvent "KXSENATE" "Senate seat and stock index" = "politics"%string.
Proof. vm_compute. repeat split. Qed.

Remark fetchAllOpenMarkets_examples :
  Pagination.fetchAllOpenMarkets nat three_pages
  = ([None; Some "a"; Some "b"]%string, Some [1; 2; 3]%nat)
  /\ Pagination.fetchAllOpenMarkets nat endless
     = ([None; Some "next"; Some "next"; Some "next"; Some "next"]%string,
        Some [0; 1; 2; 3; 4]%nat).
Proof. vm_compute. split; reflexivity. Qed.

Remark Array_sort_on_doubles :
  Array_sort (fun a b : PrimFloat.float => sub b a) [3; 10; 3; 7; 10]%float
  = [10; 10; 7; 3; 3]%float.
Proof. vm_compute. reflexivity. Qed.

End ComponentExamples.

(** *** The theorems at the examples *)

Section ComponentWitnesses.

Local Open Scope string_scope.
Local Open Scope R_scope.

Lemma scoreAll_short (ref : MarketRow R) (allMarkets : list (MarketRow R))
      (e : @Scored R) :
  (List.length allMarkets <= 30)%nat ->
  scanned ref allMarkets e -> In e (scoreAll ref allMarkets).
Proof.
  intros Hlen He. unfold scoreAll. rewrite firstn_all2.
  - rewrite byScoreDescending_key. apply Array_sort_In. now apply scanned_In.
  - rewrite (Permutation_length (Array_sort_Permutation _ _)).
    etransitivity; [apply filter_length_le |]. rewrite length_map.
    etransitivity; [apply filter_length_le | exact Hlen].
Qed.

Lemma untitled_similarity (target candidate : Market R) :
  title target = None -> event_title target = None ->
  RelatednessSpec.titleSimilarity target candidate = 0.
Proof.
  intros Ht He. unfold RelatednessSpec.titleSimilarity. rewrite Ht, He. reflexivity.
Qed.

Lemma priced_rows_score (a b : string) (pa pb : R) :
  score (computeRelatedness (market (priced_row a pa)) (market (priced_row b pb)))
  = (1 - Rabs (pa - pb) / 100) * (1 / 10)
  /\ reason (computeRelatedness (market (priced_row a pa)) (market (priced_row b pb)))
     = "".
Proof.
  pose proof (untitled_similarity (market (priced_row a pa)) (market (priced_row b pb))
                eq_refl eq_refl) as Hsim.
  split.
  - destruct (computeRelatedness_exact (market (priced_row a pa))
                                       (market (priced_row b pb))) as (-> & _).
    unfold RelatednessSpec.event_term, RelatednessSpec.topic_term,
      RelatednessSpec.price_term. cbv zeta. rewrite Hsim.
    cbn [same_nonempty event_ticker last_price market priced_row].
    destruct (Rlt_dec 0 0); lra.
  - rewrite computeRelatedness_reason, Hsim.
    cbn [same_nonempty event_ticker market priced_row].
    destruct (Rlt_dec 0 0); [lra | reflexivity].
Qed.

End ComponentWitnesses.

Lemma computeVolumeAnalysis_rank_witness :
  exists r,
    VolumeAnalysis.computeVolumeAnalysis (volume_row (Some 30%R)) volume_rows = Some r
    /\ VolumeAnalysis.totalMarkets r = List.length (positive_volumes volume_rows)
    /\ VolumeAnalysis.volumeRank r
       = (1 + Z.of_nat (larger_than 30%R (positive_volumes volume_rows)))%Z
    /\ (1 <= VolumeAnalysis.volumeRank r <= Z.of_nat (VolumeAnalysis.totalMarkets r))%Z
    /\ (VolumeAnalysis.isHotVolume r = true
        <-> (2 * Statistics.avg (positive_volumes volume_rows) < 30)%R).
Proof.
  apply (computeVolumeAnalysis_rank (volume_row (Some 30%R)) volume_rows).
  - right. left. reflexivity.
  - cbn. lra.
Defined.

Lemma scoreAll_blank_reason_witness :
  exists pt pc,
    Some 30%R = Some pt /\ Some 50%R = Some pc
    /\ (Rabs (pt - pc) < 90)%R
    /\ score (computeRelatedness (market (priced_row "A" 30%R))
                                 (market (priced_row "B" 50%R)))
       = ((1 - Rabs (pt - pc) / 100) * (1 / 10))%R
    /\ (score (computeRelatedness (market (priced_row "A" 30%R))
                                  (market (priced_row "B" 50%R))) <= 1 / 10)%R.
Proof.
  apply (scoreAll_blank_reason
           (priced_row "A" 30%R) [priced_row "A" 30%R; priced_row "B" 50%R]
           (priced_row "B" 50%R,
            computeRelatedness (market (priced_row "A" 30%R))
                               (market (priced_row "B" 50%R)))).
  - apply scoreAll_short; [cbn; lia |].
    unfold scanned. cbn [fst snd]. split; [right; left; reflexivity |].
    split; [reflexivity |]. split; [reflexivity |].
    unfold scoreOf. cbn [snd].
    rewrite (proj1 (priced_rows_score "A" "B" 30 50)).
    unfold Rabs. destruct (Rcase_abs (30 - 50)); lra.
  - apply priced_rows_score.
Defined.

Lemma flattenEvents_same_event_witness :
  reason (computeRelatedness
            (market (withEvent (A := R) (nth 0 example_events (Ev.Build_Event R None None None))
                               (titled_row "FED-HIKE" "Fed raise rates" 30%R)))
            (market (withEvent (nth 0 example_events (Ev.Build_Event R None None None))
                               (titled_row "FED-CUT" "Fed cut rates" 60%R))))
  = "SAME EVENT"%string.
Proof.
  apply (flattenEvents_same_event
           example_events
           (nth 0 example_events (Ev.Build_Event R None None None))
           (nth 0 example_events (Ev.Build_Event R None None None))
           (titled_row "FED-HIKE" "Fed raise rates" 30%R)
           (titled_row "FED-CUT" "Fed cut rates" 60%R)).
  - left. reflexivity.
  - left. reflexivity.
  - left. reflexivity.
  - right. left. reflexivity.
  - exists "FED"%string. repeat split. discriminate.
Defined.


(** *** The sorted view of the Scanner *)

Section ViewFacts.

Local Open Scope string_scope.
Local Open Scope R_scope.

Lemma Array_sort_ext {X : Type} (compare compare' : X -> X -> R) (l : list X) :
  (forall x y, compare x y = compare' x y) ->
  Array_sort compare l = Array_sort compare' l.
Proof.
  intros Hext. induction l as [| x l IH]; [reflexivity |].
  cbn [Array_sort fold_right]. fold (Array_sort compare l) (Array_sort compare' l).
  rewrite IH. generalize (Array_sort compare' l) as s.
  induction s as [| y s IHs]; cbn [sort_insert]; [reflexivity |].
  now rewrite Hext, IHs.
Qed.

(** A comparator that answers 0 leaves the order as it is. *)
Lemma Array_sort_constant {X : Type} (compare : X -> X -> R) (l : list X) :
  (forall x y, compare x y = 0) -> Array_sort compare l = l.
Proof.
  intros H0. induction l as [| x l IH]; [reflexivity |].
  cbn [Array_sort fold_right]. fold (Array_sort compare l). rewrite IH.
  destruct l as [| y l]; cbn [sort_insert]; [reflexivity |].
  rewrite H0. destruct (ltb _ _) eqn:Hlt; [| reflexivity].
  apply R_ltb_true in Hlt. cbn [ofZ R_JSNumber] in Hlt. lra.
Qed.

Lemma StronglySorted_impl {X : Type} (P Q : X -> X -> Prop) (l : list X) :
  (forall a b, P a b -> Q a b) -> StronglySorted P l -> StronglySorted Q l.
Proof.
  intros HPQ. induction 1 as [| x l Hs IH Hall]; constructor; [exact IH |].
  rewrite Forall_forall in *. intros y Hy. now apply HPQ, Hall.
Qed.

Lemma geb_true (a b : R) : View.geb a b = true <-> b <= a.
Proof.
  unfold View.geb. rewrite orb_true_iff, R_ltb_true, R_eqb_true. lra.
Qed.

(** The order of the view: by the value of the key, downwards when the
    direction is 'desc' and upwards otherwise. *)
Definition in_order (sortKey sortDir : string) (a b : View.Entry R) : Prop :=
  if String.eqb sortDir "desc"
  then View.sortValue sortKey b <= View.sortValue sortKey a
  else View.sortValue sortKey a <= View.sortValue sortKey b.

Definition sort_keys : list string :=
  ["score"; "divergence"; "spreadPct"; "momentum"; "volume"].

End ViewFacts.

(** The table of the Scanner shows exactly the results whose score is at
    least minScore, ordered by the value of the sort key: downwards for the
    direction 'desc', upwards for any other, a missing spread counting as
    999 and any other missing value as 0.  With a key that is none of the
    five the results keep the order of the scan. *)
Theorem sorted_view (sortKey sortDir : string) (minScore : R)
        (results : list (View.Entry R)) :
  (forall r, In r (View.sorted sortKey sortDir minScore results)
             <-> In r results /\ (minScore <= View.score r)%R)
  /\ StronglySorted (in_order sortKey sortDir)
                    (View.sorted sortKey sortDir minScore results)
  /\ (~ In sortKey sort_keys ->
      View.sorted sortKey sortDir minScore results
      = filter (fun r => View.geb (View.score r) minScore) results).
Proof.
  unfold View.sorted. split; [| split].
  - intros r. now rewrite filter_In, Array_sort_In, geb_true.
  - apply StronglySorted_filter. unfold in_order, View.compareEntries. cbv zeta.
    destruct (String.eqb sortDir "desc").
    + apply (Array_sort_descending (View.sortValue sortKey)).
    + rewrite (Array_sort_ext _
                 (fun a b => sub (- View.sortValue sortKey b)%R
                                 (- View.sortValue sortKey a)%R)).
      * apply (StronglySorted_impl
                 (descending (fun a => (- View.sortValue sortKey a)%R))).
        -- unfold descending. intros a b Hab. lra.
        -- apply Array_sort_descending.
      * intros x y. cbn [sub R_JSNumber]. lra.
  - intros Hkey. f_equal. apply Array_sort_constant. intros x y.
    unfold View.compareEntries, View.sortValue. cbv zeta.
    unfold sort_keys in Hkey. cbn [In] in Hkey.
    repeat match goal with
           | |- context [String.eqb sortKey ?k] =>
               destruct (String.eqb_spec sortKey k) as [-> | _];
               [exfalso; apply Hkey; tauto |]
           end.
    destruct (String.eqb sortDir "desc"); cbn [sub ofZ R_JSNumber]; lra.
Qed.

Lemma sorted_view_witness :
  View.sorted "ticker" "asc" 0%R
    [ {| View.score := 1%R; View.divergence := None; View.spreadPct := None;
         View.velocity := None; View.volume := None |} ]
  = filter (fun r => View.geb (View.score r) 0%R)
      [ {| View.score := 1%R; View.divergence := None; View.spreadPct := None;
           View.velocity := None; View.volume := None |} ].
Proof.
  apply (sorted_view "ticker" "asc" 0%R).
  cbn. intuition discriminate.
Defined.

(** On doubles: by ascending spread, the entry without a spread comes last;
    entries below the minimal score are not shown. *)
Remark sorted_on_doubles :
  map View.score
      (View.sorted "spreadPct" "asc" 0.25%float
         [ {| View.score := 0.75%float; View.divergence := None;
              View.spreadPct := None; View.velocity := None; View.volume := None |};
           {| View.score := 0.5%float; View.divergence := None;
              View.spreadPct := Some 12%float; View.velocity := None;
              View.volume := None |};
           {| View.score := 0.375%float; View.divergence := None;
              View.spreadPct := Some 4%float; View.velocity := None;
              View.volume := None |};
           {| View.score := 0.125%float; View.divergence := None;
              View.spreadPct := Some 1%float; View.velocity := None;
              View.volume := None |} ])
  = [0.375; 0.5; 0.75]%float.
Proof. vm_compute. reflexivity. Qed.

(** *** The filters of the market table *)

Section TableFacts.

Import Keywords.
Local Open Scope string_scope.




End TableFacts.


(** After a click on a header the table is sorted by that header, upwards
    or downwards: downwards when the header was not the one sorted by, the
    other way round when it was; so two clicks on the header sorted by
    bring the direction back. *)
Theorem handleSort_clicks (sortField sortDir field : string) :
  fst (Table.handleSort (sortField, sortDir) field) = field
  /\ In (snd (Table.handleSort (sortField, sortDir) field)) ["asc"; "desc"]%string
  /\ (field <> sortField ->
      snd (Table.handleSort (sortField, sortDir) field) = "desc"%string)
  /\ (In sortDir ["asc"; "desc"]%string ->
      snd (Table.handleSort (sortField, sortDir) sortField) <> sortDir
      /\ Table.handleSort (Table.handleSort (sortField, sortDir) sortField) sortField
         = (sortField, sortDir)).
Proof.
  unfold Table.handleSort. split; [| split; [| split]].
  - destruct (String.eqb_spec sortField field); [now subst | reflexivity].
  - destruct (String.eqb sortField field); cbn [snd In]; [| tauto].
    destruct (String.eqb sortDir "asc"); tauto.
  - intros Hne. destruct (String.eqb_spec sortField field); [congruence | reflexivity].
  - rewrite String.eqb_refl. cbn [In].
    intros [<- | [<- | []]]; cbn; rewrite String.eqb_refl; split;
      try reflexivity; discriminate.
Qed.

Lemma handleSort_clicks_witness :
  snd (Table.handleSort ("volume"%string, "desc"%string) "volume"%string)
  <> "desc"%string
  /\ Table.handleSort
       (Table.handleSort ("volume"%string, "desc"%string) "volume"%string)
       "volume"%string
     = ("volume"%string, "desc"%string).
Proof.
  apply (handleSort_clicks "volume"%string "desc"%string "volume"%string).
  cbn. tauto.
Defined.

Remark table_filtered_examples :
  let rows : list Table.Row :=
    [ {| Table.ticker := Some "KXMVENBASINGLEGAME-1"; Table.title := Some "Celtics win";
         Table.event_title := Some "NBA"; Table.category := "sports" |};
      {| Table.ticker := Some "KXFED-25"; Table.title := Some "Fed raises rates";
         Table.event_title := None; Table.category := "finance" |};
      {| Table.ticker := None; Table.title := Some "Rain in May";
         Table.event_title := Some "Weather"; Table.category := "culture" |} ]%string in
  map Table.ticker (Table.filtered "all" "" rows) = [Some "KXFED-25"; None]%string
  /\ map Table.ticker (Table.filtered "sports" "" rows)
     = [Some "KXMVENBASINGLEGAME-1"]%string
  /\ map Table.ticker (Table.filtered "all" "FED" rows) = [Some "KXFED-25"]%string
  /\ map Table.ticker (Table.filtered "all" "weather" rows) = [None].
Proof. vm_compute. repeat split. Qed.
